(** * Voice assistant: answer retrieval and transcription polling

    A shallow embedding of [answer_agent.py] (the fuzzy answer matcher, the
    fallback web search and the answer orchestrator) and of the polling loops
    of [audio_processing.py] and [speech_recognition.py].

    Python values are modelled by their Rocq counterparts: [str] by [string],
    [int] by [Z], [None]-or-value by [option], a list of dictionaries with
    fixed keys by a list of records.  A Python call that may raise is a
    computation in the monad [M] below, which also records the calls made to
    the two external collaborators of the agent (the scoring library and the
    search provider), so that "no score was computed" and "the provider was
    not contacted" are statements about a trace. *)

From Stdlib Require Import String Ascii List ZArith Lia Bool Arith PeanoNat.
From Stdlib Require Import DecimalString.
Import ListNotations.

Local Open Scope list_scope.
Local Open Scope string_scope.

(** ** Python helpers *)

(** Truth value of a [str]: the empty string is falsy. *)
Definition truthy (s : string) : bool := negb (s =? "").

(** Truth value of an optional [str] ([None] is falsy). *)
Definition truthy_opt (o : option string) : bool :=
  match o with
  | None => false
  | Some s => truthy s
  end.

(** The slice [s[:n]]. *)
Definition slice_to (n : nat) (s : string) : string := substring 0 n s.

(** [str(i)] for a non-negative [int]. *)
Definition str_of_nat (i : nat) : string :=
  NilEmpty.string_of_uint (Nat.to_uint i).

(** The one-character string "\n". *)
Definition nl : string := String (ascii_of_nat 10) EmptyString.

(** [d.get(key, default)] for a key that is absent ([None]) or holds text. *)
Definition get_default (field : option string) (default : string) : string :=
  match field with
  | Some v => v
  | None => default
  end.

(** [p] is an initial segment of [s]. *)
Definition is_prefix (p s : string) : Prop := exists rest, s = p ++ rest.

(** ** Exceptions, events and the computation monad *)

(** A raised [Exception]: its class name and [str(e)]. *)
Record exn : Type := Exn { exn_class : string; exn_str : string }.

(** Calls to the external collaborators of the agent. *)
Inductive event : Type :=
| EvScore (query choice : string)   (* one similarity score computed *)
| EvSearch (query : string).        (* one request sent to the provider *)

Inductive outcome (A : Type) : Type :=
| Ret (a : A)
| Raise (e : exn).
Arguments Ret {A} a.
Arguments Raise {A} e.

(** A computation: the events it performed, then its outcome. *)
Definition M (A : Type) : Type := (list event * outcome A)%type.

Definition ret {A} (a : A) : M A := ([], Ret a).

Definition raise {A} (e : exn) : M A := ([], Raise e).

Definition tell (ev : event) : M unit := ([ev], Ret tt).

Definition bind {A B} (m : M A) (k : A -> M B) : M B :=
  match m with
  | (t, Ret a) => let (t', r) := k a in ((t ++ t')%list, r)
  | (t, Raise e) => (t, Raise e)
  end.

(** [try: body / except Exception as e: handler e]. *)
Definition try_except {A} (body : M A) (handler : exn -> M A) : M A :=
  match body with
  | (t, Ret a) => (t, Ret a)
  | (t, Raise e) => let (t', r) := handler e in ((t ++ t')%list, r)
  end.

(** Lifting the outcome of an external call. *)
Definition lift {A} (o : outcome A) : M A := ([], o).

Definition trace {A} (m : M A) : list event := fst m.
Definition result {A} (m : M A) : outcome A := snd m.

Declare Scope comp_scope.
Delimit Scope comp_scope with comp.
Notation "x <- c1 ;; c2" := (bind c1 (fun x => c2))
  (at level 61, c1 at next level, right associativity) : comp_scope.
Notation "c1 ;; c2" := (bind c1 (fun _ => c2))
  (at level 61, right associativity) : comp_scope.
Local Open Scope comp_scope.

(** ** Data model *)

(** One element of [qa_database["questions"]]. *)
Record QAEntry : Type := { question : string; answer : string }.

(** The list [qa_database["questions"]]. *)
Definition QADatabase : Type := list QAEntry.

(** The dictionary returned by [get_answer]. *)
Record AnswerResult : Type := { source : string; answer_text : string }.

(** One element of the provider's ["results"] list; a key may be absent. *)
Record SearchHit : Type := { title : option string; content : option string }.

(** The provider's response: the value under ["results"] if the key is
    present.  A falsy response (an empty dictionary) has no such key. *)
Record SearchResponse : Type := { results : option (list SearchHit) }.

(** The fields of an [AnswerAgent] instance. *)
Record AnswerAgent : Type := {
  qa_database : QADatabase;
  tavily_api_key : option string
}.

(** ** Sample collaborators, used to run the model on concrete inputs *)

(** A scorer that rates a choice 100 when it equals the query, else 0. *)
Definition exact_scorer (query choice : string) : Z :=
  if query =? choice then 100%Z else 0%Z.

(** A scorer given by a table of choices, 0 for a choice not listed. *)
Fixpoint table_scorer (tbl : list (string * Z)) (query choice : string) : Z :=
  match tbl with
  | [] => 0%Z
  | (c, s) :: rest => if c =? choice then s else table_scorer rest query choice
  end.

(** A provider that answers every query with the same response. *)
Definition const_provider (r : SearchResponse) (query : string)
  : outcome SearchResponse := Ret r.

(** A provider whose every call raises. *)
Definition failing_provider (e : exn) (query : string)
  : outcome SearchResponse := Raise e.

Definition sample_hit (t c : string) : SearchHit :=
  {| title := Some t; content := Some c |}.

(** [s * n] for a [str] [s]. *)
Fixpoint repeat_string (n : nat) (s : string) : string :=
  match n with
  | O => ""
  | S n' => s ++ repeat_string n' s
  end.

(** Five sample results; the content of the second has 400 characters. *)
Definition five_hits : list SearchHit :=
  [sample_hit "Forecast" "Sunny.";
   sample_hit "Radar" (repeat_string 400 "x");
   {| title := None; content := None |};
   sample_hit "Almanac" "Cold.";
   sample_hit "Tides" "High."].

(** Sample tables and agents. *)
Definition reset_entry : QAEntry :=
  {| question := "How do I reset?"; answer := "Hold the button." |}.

Definition voice_entry : QAEntry :=
  {| question := "What is a voice assistant?";
     answer := "A voice assistant is..." |}.

Definition agent_of (db : QADatabase) (key : option string) : AnswerAgent :=
  {| qa_database := db; tavily_api_key := key |}.

(** ** The answer agent ([answer_agent.py]) *)

Section Agent.

(** [fuzz.WRatio] after the library's default processing of both strings:
    the score the library gives to a choice for a query.  The library is not
    part of the repository; its scorer is a parameter. *)
Variable scorer : string -> string -> Z.

(** [tavily_client.search(query=query, search_depth="advanced")]: the
    response, or the exception the call raises. *)
Variable tavily_search : string -> outcome SearchResponse.

(** [open(path, 'r')] followed by reading the file: its text, or the
    exception raised (missing or unreadable file). *)
Variable read_file : string -> outcome string.

(** [json.load] on the text of a file: the decoded table, or the exception
    raised on text that is not valid JSON. *)
Variable json_load : string -> outcome QADatabase.

(** [os.getenv("TAVILY_API_KEY")]. *)
Variable getenv_tavily : option string.

(** [process.extractWithoutOrder(query, choices, score_cutoff=...)] of the
    scoring library: every choice is scored once, in order, and kept when
    its score reaches the cutoff. *)
Fixpoint extractWithoutOrder (query : string) (choices : list string)
  (score_cutoff : Z) : M (list (string * Z)) :=
  match choices with
  | [] => ret []
  | choice :: rest =>
      tell (EvScore query choice) ;;
      let score := scorer query choice in
      kept <- extractWithoutOrder query rest score_cutoff ;;
      ret (if (score_cutoff <=? score)%Z then (choice, score) :: kept
           else kept)
  end.

(** Python's [max(iterable, key=lambda i: i[1])] continued from a current
    best: a later element replaces it only when its key is strictly larger,
    so the first maximum is returned. *)
Fixpoint max_by_score (best : string * Z) (l : list (string * Z))
  : string * Z :=
  match l with
  | [] => best
  | x :: rest =>
      if (snd best <? snd x)%Z then max_by_score x rest
      else max_by_score best rest
  end.

(** [process.extractOne(query, choices)] with the default cutoff 0:
    the first pair of maximal score, [None] when nothing was kept. *)
Definition extractOne (query : string) (choices : list string)
  : M (option (string * Z)) :=
  best_list <- extractWithoutOrder query choices 0%Z ;;
  match best_list with
  | [] => ret None
  | x :: rest => ret (Some (max_by_score x rest))
  end.

(** The loop [for item in questions: if item["question"] == best_match:
    return item["answer"]]; [None] when the loop ends without returning. *)
Fixpoint answer_of_first (best_match : string) (items : QADatabase)
  : option string :=
  match items with
  | [] => None
  | item :: rest =>
      if question item =? best_match then Some (answer item)
      else answer_of_first best_match rest
  end.

(** Unpacking [best_match, score = None] raises. *)
Definition unpack_none : exn :=
  Exn "TypeError" "cannot unpack non-iterable NoneType object".

Definition find_best_match_in_database (self : AnswerAgent) (query : string)
  (threshold : Z) : M (option string) :=
  if negb (truthy query) || match qa_database self with [] => true | _ => false end
  then ret None
  else
    let questions := map question (qa_database self) in
    r <- extractOne query questions ;;
    match r with
    | None => raise unpack_none
    | Some (best_match, score) =>
        if (threshold <=? score)%Z
        then ret (answer_of_first best_match (qa_database self))
        else ret None
    end.

Definition default_threshold : Z := 80%Z.

(** The excerpt [result.get('content', 'No content')[:300]]. *)
Definition excerpt (r : SearchHit) : string :=
  slice_to 300 (get_default (content r) "No content").

(** The two lines appended for the [i]-th result. *)
Definition format_hit (i : nat) (r : SearchHit) : string :=
  (str_of_nat i ++ ". " ++ get_default (title r) "No title" ++ nl)
  ++ ("   " ++ excerpt r ++ "..." ++ nl ++ nl).

(** The loop over [enumerate(hits, i)], appending to [formatted_response]. *)
Fixpoint format_hits (i : nat) (hits : list SearchHit)
  (formatted_response : string) : string :=
  match hits with
  | [] => formatted_response
  | r :: rest => format_hits (S i) rest (formatted_response ++ format_hit i r)
  end.

Definition web_header : string :=
  "Here's what I found on the web:" ++ nl ++ nl.

Definition key_missing_message : string :=
  "Web search is not available because the Tavily API key is missing.".

Definition nothing_found_message : string :=
  "I couldn't find relevant information on the web for your question.".

Definition search_error_message (e : exn) : string :=
  "Sorry, there was an error while searching the web: " ++ exn_str e.

Definition search_web (self : AnswerAgent) (query : string) : M string :=
  if negb (truthy_opt (tavily_api_key self))
  then ret key_missing_message
  else
    try_except
      (tell (EvSearch query) ;;
       search_result <- lift (tavily_search query) ;;
       match results search_result with
       | Some rs => ret (format_hits 1 (firstn 3 rs) web_header)
       | None => ret nothing_found_message
       end)
      (fun e => ret (search_error_message e)).

Definition get_answer (self : AnswerAgent) (query : string)
  : M AnswerResult :=
  database_answer <- find_best_match_in_database self query default_threshold ;;
  if truthy_opt database_answer
  then ret {| source := "database";
              answer_text := get_default database_answer "" |}
  else
    web_answer <- search_web self query ;;
    ret {| source := "web"; answer_text := web_answer |}.

(** [_load_qa_database]: any exception while opening, reading or decoding
    the file yields the empty table. *)
Definition _load_qa_database (qa_database_path : string) : M QADatabase :=
  try_except
    (text <- lift (read_file qa_database_path) ;;
     lift (json_load text))
    (fun e => ret []).

(** [AnswerAgent.__init__]. *)
Definition init_agent (qa_database_path : string) : M AnswerAgent :=
  db <- _load_qa_database qa_database_path ;;
  ret {| qa_database := db; tavily_api_key := getenv_tavily |}.

End Agent.

(** ** Transcription polling ([audio_processing.py], [speech_recognition.py]) *)

(** The decoded body of one response of the polling endpoint. *)
Record TranscriptionResult : Type := {
  status : string;
  text : string;
  error : option string;
  percent : option Z
}.

(** Where a run of the [while True] loop stands: about to send poll number
    [polls_made] (counted from 0), having slept [slept] seconds in the loop,
    or having left the function with a value. *)
Inductive loop_state : Type :=
| Polling (polls_made : nat) (dots : nat) (slept : nat)
| Returned (v : option string).

(** A status after which the job no longer changes. *)
Definition terminal (r : TranscriptionResult) : bool :=
  (status r =? "completed") || (status r =? "error").

(** Sample poll sequences: two responses in progress, then a final one. *)
Definition in_progress : TranscriptionResult :=
  {| status := "processing"; text := ""; error := None; percent := None |}.

Definition completed_with (t : string) : TranscriptionResult :=
  {| status := "completed"; text := t; error := None; percent := None |}.

Definition sample_polls (n : nat) : outcome TranscriptionResult :=
  if (n <? 2)%nat then Ret in_progress else Ret (completed_with "hello world").

Definition endless_polls (n : nat) : outcome TranscriptionResult :=
  Ret in_progress.

(** An in-progress response whose percent no progress bar accepts. *)
Definition overshoot : TranscriptionResult :=
  {| status := "processing"; text := ""; error := None;
     percent := Some 150%Z |}.

Definition overshoot_polls (n : nat) : outcome TranscriptionResult :=
  Ret overshoot.

(** [st.progress(value)] and [progress_bar.progress(value)] of the display
    library, for an [int]: a value from 0 to 100 is shown, any other raises. *)
Definition st_progress (value : Z) : outcome unit :=
  if (0 <=? value)%Z && (value <=? 100)%Z then Ret tt
  else Raise (Exn "StreamlitAPIException"
                  "Progress Value has invalid value [0, 100]").

Module AudioProcessing.
Section Loop.

(** The decoded response of the [n]-th GET on the polling endpoint of the
    job, or the exception raised by the request or by decoding it. *)
Variable poll : nat -> outcome TranscriptionResult.
Variable show_progress : bool.

(** One iteration of the loop body, all of it inside the [try].  With the
    display on, the progress bar is set to 100 on completion and to the
    response's percent, when it has one, while the job is in progress; a
    value the bar rejects raises, and the handler returns [None].  The
    widgets that show a text only display. *)
Definition loop_body (n dots slept : nat) : loop_state :=
  match poll n with
  | Raise e => Returned None
  | Ret transcription_result =>
      if status transcription_result =? "completed"
      then
        if show_progress
        then match st_progress 100%Z with
             | Raise e => Returned None
             | Ret _ => Returned (Some (text transcription_result))
             end
        else Returned (Some (text transcription_result))
      else if status transcription_result =? "error"
      then Returned None
      else
        if show_progress
        then
          let dots := (dots mod 3 + 1)%nat in
          match percent transcription_result with
          | Some progress =>
              match st_progress progress with
              | Raise e => Returned None
              | Ret _ => Polling (S n) dots (slept + 2)
              end
          | None => Polling (S n) dots (slept + 2)
          end
        else Polling (S n) dots (slept + 2)
  end.

(** At most [fuel] iterations of the loop. *)
Fixpoint iterate (fuel : nat) (st : loop_state) : loop_state :=
  match st, fuel with
  | Polling n dots slept, S fuel' => iterate fuel' (loop_body n dots slept)
  | _, _ => st
  end.

(** [transcribe_audio], given the value of [upload_file] and the outcome of
    starting the job: the status code of the POST, or the exception raised
    by the request or, on status 200, by reading [response.json()["id"]].
    With the display on, the progress bar is created at 0 before the loop. *)
Definition transcribe_audio (upload_url : option string)
  (response : outcome Z) (fuel : nat) : loop_state :=
  if negb (truthy_opt upload_url) then Returned None
  else
    match response with
    | Raise e => Returned None
    | Ret status_code =>
        if (status_code =? 200)%Z
        then
          if show_progress
          then match st_progress 0%Z with
               | Raise e => Returned None
               | Ret _ => iterate fuel (Polling 0 0 0)
               end
          else iterate fuel (Polling 0 0 0)
        else Returned None
    end.

End Loop.
End AudioProcessing.

Module SpeechRecognition.
Section Loop.

Variable poll : nat -> outcome TranscriptionResult.
Variable output_file : option string.

(** Writing the text to [output_file]: done, or the exception raised. *)
Variable write_file : string -> string -> outcome unit.

Definition loop_body (n dots slept : nat) : loop_state :=
  match poll n with
  | Raise e => Returned None
  | Ret transcription_result =>
      if status transcription_result =? "completed"
      then
        let transcription_text := text transcription_result in
        match output_file with
        | Some path =>
            if truthy path
            then match write_file path transcription_text with
                 | Raise e => Returned None
                 | Ret _ => Returned (Some transcription_text)
                 end
            else Returned (Some transcription_text)
        | None => Returned (Some transcription_text)
        end
      else if status transcription_result =? "error"
      then Returned None
      else Polling (S n) dots (slept + 3)
  end.

Fixpoint iterate (fuel : nat) (st : loop_state) : loop_state :=
  match st, fuel with
  | Polling n dots slept, S fuel' => iterate fuel' (loop_body n dots slept)
  | _, _ => st
  end.

(** [transcribe_audio], given the value of [upload_file] and the outcome of
    starting the job: the status code of the POST, or the exception raised
    by the request or, on status 200, by reading [response.json()["id"]]. *)
Definition transcribe_audio (upload_url : option string)
  (response : outcome Z) (fuel : nat) : loop_state :=
  if negb (truthy_opt upload_url) then Returned None
  else
    match response with
    | Raise e => Returned None
    | Ret status_code =>
        if (status_code =? 200)%Z then iterate fuel (Polling 0 0 0)
        else Returned None
    end.

End Loop.
End SpeechRecognition.

(** ** Vocabulary of the statements *)

(** The scoring library's scores are never negative. *)
Definition nonneg_scorer (scorer : string -> string -> Z) : Prop :=
  forall query choice, (0 <= scorer query choice)%Z.

(** [e] is the first entry of [db], in list order, that attains the highest
    score [s] any entry of [db] has for [query]. *)
Definition first_best_entry (scorer : string -> string -> Z) (query : string)
  (db : QADatabase) (e : QAEntry) (s : Z) : Prop :=
  exists before after,
    db = (before ++ e :: after)%list /\
    scorer query (question e) = s /\
    (forall e', In e' before -> (scorer query (question e') < s)%Z) /\
    (forall e', In e' after -> (scorer query (question e') <= s)%Z).

(** [e] is the earliest entry of [db] whose question text is [qtext]. *)
Definition earliest_with_question (db : QADatabase) (qtext : string)
  (e : QAEntry) : Prop :=
  exists before after,
    db = (before ++ e :: after)%list /\
    question e = qtext /\
    (forall e', In e' before -> question e' <> qtext).

(** The pairs the library builds for the questions of [db]. *)
Definition scored (scorer : string -> string -> Z) (query : string)
  (db : QADatabase) : list (string * Z) :=
  map (fun c => (c, scorer query c)) (map question db).

(** The numbered items for [hits], the first of them numbered [i]. *)
Fixpoint numbered (i : nat) (hits : list SearchHit) : string :=
  match hits with
  | [] => ""
  | r :: rest => format_hit i r ++ numbered (S i) rest
  end.

(** "The query is answered from entry [e]": the library's best match is the
    query itself with score 100, the matcher returns the stored answer of
    [e], and the orchestrator tags the result "database". *)
Definition answered_from_entry (scorer : string -> string -> Z)
  (tavily_search : string -> outcome SearchResponse)
  (self : AnswerAgent) (query : string) (e : QAEntry) : Prop :=
  result (extractOne scorer query (map question (qa_database self)))
    = Ret (Some (query, 100%Z)) /\
  result (find_best_match_in_database scorer self query default_threshold)
    = Ret (Some (answer e)) /\
  exists r, result (get_answer scorer tavily_search self query) = Ret r /\
            source r = "database".

(** Every poll numbered from [i] up to, not including, [k] answers with a
    status that is not terminal. *)
Definition in_progress_until (poll : nat -> outcome TranscriptionResult)
  (i k : nat) : Prop :=
  forall j, (i <= j < k)%nat -> exists r, poll j = Ret r /\ terminal r = false.

(** Poll number [k] is the first to answer with a terminal status. *)
Definition first_terminal (poll : nat -> outcome TranscriptionResult)
  (k : nat) (r : TranscriptionResult) : Prop :=
  poll k = Ret r /\ terminal r = true /\ in_progress_until poll 0 k.

(** Every poll answers with a decoded response. *)
Definition always_responds (poll : nat -> outcome TranscriptionResult)
  : Prop :=
  forall n, exists r, poll n = Ret r.

(** The value the loop returns on a terminal response. *)
Definition loop_value (r : TranscriptionResult) : option string :=
  if status r =? "completed" then Some (text r) else None.

(** Writing the output file never raises. *)
Definition writes_succeed (write_file : string -> string -> outcome unit)
  : Prop :=
  forall path t, write_file path t = Ret tt.

(** The display accepts the percent of a response, or the response has
    none. *)
Definition percent_accepted (r : TranscriptionResult) : bool :=
  match percent r with
  | Some p => (0 <=? p)%Z && (p <=? 100)%Z
  | None => true
  end.

(** The display accepts the percent of every response before poll [k]. *)
Definition percents_accepted_until
  (poll : nat -> outcome TranscriptionResult) (k : nat) : Prop :=
  forall j r, (j < k)%nat -> poll j = Ret r -> percent_accepted r = true.


(** The contract's words for one formatted result: [ex] is the content cut
    to its first 300 characters. *)
Definition cut_to_300 (c ex : string) : Prop :=
  is_prefix ex c /\ String.length ex = Nat.min 300 (String.length c).

(** The contract's words for one formatted result: the number and the
    title on a line, then the indented excerpt and an ellipsis, then an
    empty line. *)
Definition numbered_item (label ttl ex : string) : string :=
  label ++ ". " ++ ttl ++ String "010"%char ""
  ++ "   " ++ ex ++ "..." ++ String "010"%char "" ++ String "010"%char "".

(** The title shown for a result: its title, or "No title" without one. *)
Definition shown_title (r : SearchHit) : string :=
  match title r with
  | Some t => t
  | None => "No title"
  end.

(** The text a result is excerpted from: its content, or "No content". *)
Definition shown_content (r : SearchHit) : string :=
  match content r with
  | Some c => c
  | None => "No content"
  end.

(** No request to the search provider occurs in a trace. *)
Definition no_search (t : list event) : Prop :=
  forall q, ~ In (EvSearch q) t.

(** No similarity score is computed in a trace. *)
Definition no_score (t : list event) : Prop :=
  forall q c, ~ In (EvScore q c) t.

(** ** Uploading the audio ([upload_file], the same in the three files) *)

(** The response to the POST on the upload endpoint: its status code, and
    the value of [response.json()["upload_url"]], or the exception raised by
    decoding the body or by the missing key. *)
Record UploadResponse : Type := {
  upload_status : Z;
  upload_url_field : outcome string
}.

(** [upload_file], given the outcome of opening the audio file and the
    outcome of the POST.  The file is opened first; any exception gives
    [None]. *)
Definition upload_file (opened : outcome unit)
  (post : outcome UploadResponse) : option string :=
  match opened with
  | Raise e => None
  | Ret _ =>
      match post with
      | Raise e => None
      | Ret response =>
          if (upload_status response =? 200)%Z
          then match upload_url_field response with
               | Ret upload_url => Some upload_url
               | Raise e => None
               end
          else None
      end
  end.

(** ** The third polling loop ([web_interface.py]) *)

Module WebInterface.
Section Loop.

Variable poll : nat -> outcome TranscriptionResult.

Definition loop_body (n dots slept : nat) : loop_state :=
  match poll n with
  | Raise e => Returned None
  | Ret transcription_result =>
      if status transcription_result =? "completed"
      then Returned (Some (text transcription_result))
      else if status transcription_result =? "error"
      then Returned None
      else Polling (S n) dots (slept + 3)
  end.

Fixpoint iterate (fuel : nat) (st : loop_state) : loop_state :=
  match st, fuel with
  | Polling n dots slept, S fuel' => iterate fuel' (loop_body n dots slept)
  | _, _ => st
  end.

(** [transcribe_audio], given the value of [upload_file] and the outcome of
    starting the job: the status code of the POST, or the exception raised
    by the request or, on status 200, by reading [response.json()["id"]]. *)
Definition transcribe_audio (upload_url : option string)
  (response : outcome Z) (fuel : nat) : loop_state :=
  if negb (truthy_opt upload_url) then Returned None
  else
    match response with
    | Raise e => Returned None
    | Ret status_code =>
        if (status_code =? 200)%Z then iterate fuel (Polling 0 0 0)
        else Returned None
    end.

End Loop.
End WebInterface.

(** How far a run has come: the number of the next poll, or the value
    returned. *)
Definition progress_of (st : loop_state) : nat + option string :=
  match st with
  | Polling n _ _ => inl n
  | Returned v => inr v
  end.

(** The value of [dots] after [n] responses in progress, when the progress
    display is on: 1, 2, 3, 1, 2, 3, ... *)
Definition dots_after (n : nat) : nat :=
  match n with
  | O => 0
  | S m => m mod 3 + 1
  end.

(** ** Speech synthesis ([text_to_speech.py]) *)

Module TextToSpeech.

(** What the engine does to the file system and the loudspeaker. *)
Inductive tts_event : Type :=
| EvTemp (path : string)     (* a temporary file was created, kept on close *)
| EvSave (path : string)     (* [tts.save(path)] was called *)
| EvLoad (path : string)     (* [AudioSegment.from_mp3(path)] was called *)
| EvPlay (path : string)     (* [play(audio)] was called *)
| EvRemove (path : string).  (* [os.remove(path)] was called *)

(** The fields of a [TextToSpeech] instance. *)
Record engine : Type := { language : string; slow : bool }.

Section Engine.

(** [gTTS(text=..., lang=..., slow=...)]: done, or the exception raised. *)
Variable gTTS : string -> string -> bool -> outcome unit.

(** [tempfile.NamedTemporaryFile(suffix='.mp3', delete=False)]: the name of
    the file created, or the exception raised. *)
Variable named_temporary_file : outcome string.

(** [tts.save(path)] for the object built from a text. *)
Variable save : string -> string -> outcome unit.

(** [AudioSegment.from_mp3(path)] and [play(audio)]. *)
Variable from_mp3 : string -> outcome unit.
Variable play : string -> outcome unit.

Definition text_to_speech (self : engine) (txt : string)
  (output_file : option string) : list tts_event * option string :=
  match gTTS txt (language self) (slow self) with
  | Raise e => ([], None)
  | Ret _ =>
      match output_file with
      | None =>
          match named_temporary_file with
          | Raise e => ([], None)
          | Ret tmp =>
              match save txt tmp with
              | Raise e => ([EvTemp tmp; EvSave tmp], None)
              | Ret _ => ([EvTemp tmp; EvSave tmp], Some tmp)
              end
          end
      | Some path =>
          match save txt path with
          | Raise e => ([EvSave path], None)
          | Ret _ => ([EvSave path], Some path)
          end
      end
  end.

(** [speak].  Whether [os.remove] raises or not, the handler returns the
    same [audio_file], so only the call is recorded. *)
Definition speak (self : engine) (txt : string)
  (output_file : option string) : list tts_event * option string :=
  let (evs, audio_file) := text_to_speech self txt output_file in
  if truthy_opt audio_file
  then
    let path := get_default audio_file "" in
    match from_mp3 path with
    | Raise e => ((evs ++ [EvLoad path])%list, audio_file)
    | Ret _ =>
        match play path with
        | Raise e => ((evs ++ [EvLoad path; EvPlay path])%list, audio_file)
        | Ret _ =>
            match output_file with
            | None =>
                ((evs ++ [EvLoad path; EvPlay path; EvRemove path])%list,
                 audio_file)
            | Some _ =>
                ((evs ++ [EvLoad path; EvPlay path])%list, audio_file)
            end
        end
    end
  else (evs, None).

End Engine.
End TextToSpeech.

(** ** The page ([voice_assistant.py]) *)

Module VoiceAssistant.

(** [process_audio_and_answer], given the value [transcribe_audio]
    returned. *)
Definition process_audio_and_answer (scorer : string -> string -> Z)
  (tavily_search : string -> outcome SearchResponse)
  (answer_agent : AnswerAgent) (transcription : option string)
  : M (option string * option AnswerResult) :=
  if negb (truthy_opt transcription) then ret (None, None)
  else
    response <- get_answer scorer tavily_search answer_agent
                  (get_default transcription "") ;;
    ret (transcription, Some response).

(** The label shown after "Source:" in [main]. *)
Definition source_label (response : AnswerResult) : string :=
  if source response =? "database" then "Local Knowledge Base"
  else "Web Search".

(** The text handed to the speech engine in [main]. *)
Definition text_for_speech (response : AnswerResult) : string :=
  slice_to 1000 (answer_text response).

End VoiceAssistant.

(** ** Facts about the monad and the helpers *)

Lemma truthy_true_iff (s : string) : truthy s = true <-> s <> "".
Proof.
  unfold truthy. rewrite negb_true_iff. split.
  - intros H E. subst s. discriminate H.
  - intros H. apply String.eqb_neq. exact H.
Qed.

Lemma truthy_false_iff (s : string) : truthy s = false <-> s = "".
Proof.
  unfold truthy. rewrite negb_false_iff. apply String.eqb_eq.
Qed.

Lemma bind_ret {A B} (a : A) (k : A -> M B) : bind (ret a) k = k a.
Proof.
  unfold bind, ret. destruct (k a) as [t r]. reflexivity.
Qed.

Lemma bind_pair_ret {A B} (t : list event) (a : A) (k : A -> M B) :
  bind (t, Ret a) k = ((t ++ fst (k a))%list, snd (k a)).
Proof.
  unfold bind. destruct (k a) as [t' r]. reflexivity.
Qed.

Lemma bind_pair_raise {A B} (t : list event) (e : exn) (k : A -> M B) :
  bind (t, Raise e) k = (t, Raise e).
Proof. reflexivity. Qed.

Lemma length_slice_to (n : nat) (s : string) :
  (String.length (slice_to n s) <= n)%nat.
Proof.
  unfold slice_to. revert s.
  induction n as [|n IH]; intros s; destruct s as [|c s]; simpl; try lia.
  specialize (IH s). lia.
Qed.

Lemma slice_to_prefix (n : nat) (s : string) : is_prefix (slice_to n s) s.
Proof.
  unfold slice_to, is_prefix. revert s.
  induction n as [|n IH]; intros s; destruct s as [|c s]; simpl.
  - exists "". reflexivity.
  - exists (String c s). reflexivity.
  - exists "". reflexivity.
  - destruct (IH s) as [rest E]. exists rest. simpl. f_equal. exact E.
Qed.

Lemma slice_to_short (n : nat) (s : string) :
  (String.length s <= n)%nat -> slice_to n s = s.
Proof.
  unfold slice_to. revert s.
  induction n as [|n IH]; intros s H; destruct s as [|c s]; simpl in *;
    try reflexivity; try lia.
  f_equal. apply IH. lia.
Qed.

Lemma length_slice_to_long (n : nat) (s : string) :
  (n <= String.length s)%nat -> String.length (slice_to n s) = n.
Proof.
  unfold slice_to. revert s.
  induction n as [|n IH]; intros s H; destruct s as [|c s]; simpl in *;
    try reflexivity; try lia.
  f_equal. apply IH. lia.
Qed.

Lemma length_slice_to_min (n : nat) (s : string) :
  String.length (slice_to n s) = Nat.min n (String.length s).
Proof.
  destruct (Nat.le_ge_cases n (String.length s)) as [H|H].
  - rewrite length_slice_to_long by exact H. lia.
  - rewrite slice_to_short by exact H. lia.
Qed.

(** ** Facts about the matcher *)

Section MatcherFacts.

Variable scorer : string -> string -> Z.

(** The library scores each choice once, in order, and filters by cutoff. *)
Lemma extractWithoutOrder_run (query : string) (choices : list string)
  (cutoff : Z) :
  extractWithoutOrder scorer query choices cutoff =
  (map (EvScore query) choices,
   Ret (filter (fun p => (cutoff <=? snd p)%Z)
               (map (fun c => (c, scorer query c)) choices))).
Proof.
  induction choices as [|c cs IH]; simpl.
  - reflexivity.
  - rewrite IH. unfold tell. rewrite bind_pair_ret. simpl.
    rewrite app_nil_r.
    destruct (cutoff <=? scorer query c)%Z; reflexivity.
Qed.

Lemma filter_nonneg (query : string) (choices : list string) :
  nonneg_scorer scorer ->
  filter (fun p => (0 <=? snd p)%Z)
         (map (fun c => (c, scorer query c)) choices) =
  map (fun c => (c, scorer query c)) choices.
Proof.
  intros Hn. induction choices as [|c cs IH]; simpl.
  - reflexivity.
  - destruct (Z.leb_spec 0 (scorer query c)) as [_|Hlt].
    + f_equal. exact IH.
    + specialize (Hn query c). lia.
Qed.

Lemma max_by_score_keeps (best : string * Z) (l : list (string * Z)) :
  (forall y, In y l -> (snd y <= snd best)%Z) ->
  max_by_score best l = best.
Proof.
  induction l as [|x rest IH]; simpl; intros H.
  - reflexivity.
  - destruct (Z.ltb_spec (snd best) (snd x)) as [Hlt|Hge].
    + specialize (H x (or_introl eq_refl)). lia.
    + apply IH. intros y Hy. apply H. right. exact Hy.
Qed.

Lemma max_by_score_reaches (m : string * Z) (l2 : list (string * Z)) :
  (forall y, In y l2 -> (snd y <= snd m)%Z) ->
  forall l1 best,
    (snd best < snd m)%Z ->
    (forall y, In y l1 -> (snd y < snd m)%Z) ->
    max_by_score best (l1 ++ m :: l2)%list = m.
Proof.
  intros H2. induction l1 as [|x l1 IH]; simpl; intros best Hb H1.
  - destruct (Z.ltb_spec (snd best) (snd m)) as [_|Hge]; [|lia].
    apply max_by_score_keeps. exact H2.
  - assert (Hx : (snd x < snd m)%Z) by (apply H1; left; reflexivity).
    destruct (Z.ltb_spec (snd best) (snd x)).
    + apply IH; [exact Hx|]. intros y Hy. apply H1. right. exact Hy.
    + apply IH; [exact Hb|]. intros y Hy. apply H1. right. exact Hy.
Qed.

(** [max] over a non-empty list returns its first maximum. *)
Lemma max_by_score_first (l1 l2 : list (string * Z)) (m : string * Z) :
  (forall y, In y l1 -> (snd y < snd m)%Z) ->
  (forall y, In y l2 -> (snd y <= snd m)%Z) ->
  match (l1 ++ m :: l2)%list with
  | [] => None
  | x :: rest => Some (max_by_score x rest)
  end = Some m.
Proof.
  intros H1 H2. destruct l1 as [|x l1]; simpl.
  - f_equal. apply max_by_score_keeps. exact H2.
  - f_equal. apply max_by_score_reaches.
    + exact H2.
    + apply H1. left. reflexivity.
    + intros y Hy. apply H1. right. exact Hy.
Qed.

Lemma scored_app (query : string) (d1 d2 : QADatabase) :
  scored scorer query (d1 ++ d2)%list =
  (scored scorer query d1 ++ scored scorer query d2)%list.
Proof. unfold scored. rewrite !map_app. reflexivity. Qed.

Lemma in_scored (query : string) (db : QADatabase) (y : string * Z) :
  In y (scored scorer query db) ->
  exists e, In e db /\ y = (question e, scorer query (question e)).
Proof.
  unfold scored. rewrite map_map. intros H.
  apply in_map_iff in H. destruct H as [e [E Hin]].
  exists e. split; [exact Hin|]. symmetry. exact E.
Qed.

(** What [extractOne] returns on the questions of a table whose first best
    entry is [e] with score [s]. *)
Lemma extractOne_first_best (query : string) (db : QADatabase)
  (e : QAEntry) (s : Z) :
  nonneg_scorer scorer ->
  first_best_entry scorer query db e s ->
  extractOne scorer query (map question db) =
  (map (EvScore query) (map question db), Ret (Some (question e, s))).
Proof.
  intros Hn [before [after [Edb [Es [Hb Ha]]]]].
  unfold extractOne. rewrite extractWithoutOrder_run.
  rewrite filter_nonneg by exact Hn.
  rewrite bind_pair_ret.
  fold (scored scorer query db). subst db.
  rewrite scored_app.
  change (scored scorer query (e :: after))
    with ((question e, scorer query (question e))
            :: scored scorer query after).
  rewrite Es.
  assert (H1 : forall y, In y (scored scorer query before) -> (snd y < s)%Z).
  { intros y Hy. apply in_scored in Hy. destruct Hy as [e' [Hin ->]].
    simpl. apply Hb. exact Hin. }
  assert (H2 : forall y, In y (scored scorer query after) -> (snd y <= s)%Z).
  { intros y Hy. apply in_scored in Hy. destruct Hy as [e' [Hin ->]].
    simpl. apply Ha. exact Hin. }
  pose proof (max_by_score_first (scored scorer query before)
                (scored scorer query after) (question e, s) H1 H2) as Hmax.
  destruct (scored scorer query before ++
            (question e, s) :: scored scorer query after)%list
    as [|x rest].
  - discriminate Hmax.
  - injection Hmax as Hmax. simpl. rewrite Hmax.
    rewrite app_nil_r. reflexivity.
Qed.

(** Every non-empty table has a first best entry. *)
Lemma first_best_entry_exists (query : string) (db : QADatabase) :
  db <> [] -> exists e s, first_best_entry scorer query db e s.
Proof.
  induction db as [|e rest IH]; intros Hne; [contradiction|].
  destruct rest as [|e2 rest'].
  - exists e, (scorer query (question e)), [], [].
    repeat split; intros e' [].
  - destruct IH as [e' [s' [before [after [Edb [Es [Hb Ha]]]]]]];
      [discriminate|].
    destruct (Z.ltb_spec (scorer query (question e)) s') as [Hlt|Hge].
    + exists e', s', (e :: before), after. repeat split.
      * simpl. rewrite Edb. reflexivity.
      * exact Es.
      * intros x [<-|Hx]; [exact Hlt|apply Hb; exact Hx].
      * exact Ha.
    + exists e, (scorer query (question e)), [], (e2 :: rest').
      repeat split.
      * intros x [].
      * intros x Hx. rewrite Edb in Hx. apply in_app_or in Hx.
        destruct Hx as [Hx|[<-|Hx]].
        -- specialize (Hb x Hx). lia.
        -- lia.
        -- specialize (Ha x Hx). lia.
Qed.

(** The first best entry is the earliest entry bearing its question. *)
Lemma first_best_is_earliest (query : string) (db : QADatabase)
  (e : QAEntry) (s : Z) :
  first_best_entry scorer query db e s ->
  earliest_with_question db (question e) e.
Proof.
  intros [before [after [Edb [Es [Hb Ha]]]]].
  exists before, after. repeat split; [exact Edb|].
  intros e' Hin Eq. specialize (Hb e' Hin). rewrite Eq in Hb. lia.
Qed.

(** The lookup loop returns the answer of the earliest entry. *)
Lemma answer_of_first_earliest (db : QADatabase) (qtext : string)
  (e : QAEntry) :
  earliest_with_question db qtext e ->
  answer_of_first qtext db = Some (answer e).
Proof.
  intros [before [after [Edb [Eq Hb]]]]. subst db.
  induction before as [|x before IH]; simpl.
  - rewrite Eq. rewrite String.eqb_refl. reflexivity.
  - destruct (String.eqb_spec (question x) qtext) as [Ex|_].
    + exfalso. apply (Hb x); [left; reflexivity|exact Ex].
    + apply IH. intros e' Hin. apply Hb. right. exact Hin.
Qed.

Lemma answer_of_first_none (db : QADatabase) (qtext : string) :
  (forall e, In e db -> question e <> qtext) ->
  answer_of_first qtext db = None.
Proof.
  induction db as [|x db IH]; simpl; intros H.
  - reflexivity.
  - destruct (String.eqb_spec (question x) qtext) as [Ex|_].
    + exfalso. apply (H x); [left; reflexivity|exact Ex].
    + apply IH. intros e Hin. apply H. right. exact Hin.
Qed.

(** The whole matcher on a non-empty query and table. *)
Lemma find_best_match_run (self : AnswerAgent) (query : string)
  (threshold : Z) (e : QAEntry) (s : Z) :
  nonneg_scorer scorer ->
  query <> "" ->
  first_best_entry scorer query (qa_database self) e s ->
  find_best_match_in_database scorer self query threshold =
  (map (EvScore query) (map question (qa_database self)),
   Ret (if (threshold <=? s)%Z then Some (answer e) else None)).
Proof.
  intros Hn Hq Hfb. unfold find_best_match_in_database.
  apply truthy_true_iff in Hq. rewrite Hq. simpl.
  destruct (qa_database self) as [|e0 db0] eqn:Edb.
  - destruct Hfb as [before [after [E _]]].
    destruct before; discriminate E.
  - rewrite <- Edb in *.
    rewrite (extractOne_first_best query (qa_database self) e s Hn Hfb).
    rewrite bind_pair_ret.
    pose proof (answer_of_first_earliest _ _ _
                  (first_best_is_earliest _ _ _ _ Hfb)) as Hans.
    destruct (threshold <=? s)%Z; simpl.
    + rewrite app_nil_r. rewrite Hans. reflexivity.
    + rewrite app_nil_r. reflexivity.
Qed.

Lemma find_best_match_guard (self : AnswerAgent) (query : string)
  (threshold : Z) :
  query = "" \/ qa_database self = [] ->
  find_best_match_in_database scorer self query threshold = ([], Ret None).
Proof.
  intros [Hq|Hdb]; unfold find_best_match_in_database.
  - subst query. reflexivity.
  - rewrite Hdb. rewrite orb_true_r. reflexivity.
Qed.

(** With non-negative scores the matcher never raises. *)
Lemma find_best_match_returns (self : AnswerAgent) (query : string)
  (threshold : Z) :
  nonneg_scorer scorer ->
  exists r, result (find_best_match_in_database scorer self query threshold)
            = Ret r.
Proof.
  intros Hn.
  destruct (String.eqb_spec query "") as [Hq|Hq].
  - rewrite find_best_match_guard by (left; exact Hq). eexists. reflexivity.
  - destruct (qa_database self) as [|e0 db0] eqn:Edb.
    + rewrite find_best_match_guard by (right; exact Edb).
      eexists. reflexivity.
    + destruct (first_best_entry_exists query (qa_database self))
        as [e [s Hfb]]; [rewrite Edb; discriminate|].
      rewrite (find_best_match_run self query threshold e s Hn Hq Hfb).
      eexists. reflexivity.
Qed.

End MatcherFacts.

(** ** Facts about the web search and the orchestrator *)

Lemma string_app_assoc (a b c : string) : (a ++ b) ++ c = a ++ (b ++ c).
Proof.
  induction a as [|x a IH]; simpl; [reflexivity|]. rewrite IH. reflexivity.
Qed.

Lemma string_app_nil_r (a : string) : a ++ "" = a.
Proof.
  induction a as [|x a IH]; simpl; [reflexivity|]. rewrite IH. reflexivity.
Qed.

Lemma format_hits_numbered (hits : list SearchHit) :
  forall i acc, format_hits i hits acc = acc ++ numbered i hits.
Proof.
  induction hits as [|r rest IH]; intros i acc; simpl.
  - symmetry. apply string_app_nil_r.
  - rewrite IH. apply string_app_assoc.
Qed.

Section SearchFacts.

Variable tavily_search : string -> outcome SearchResponse.

Lemma search_web_key_missing (self : AnswerAgent) (query : string) :
  truthy_opt (tavily_api_key self) = false ->
  search_web tavily_search self query = ([], Ret key_missing_message).
Proof.
  intros H. unfold search_web. rewrite H. reflexivity.
Qed.

(** With a key, exactly one request is sent, and its outcome decides the
    text returned. *)
Lemma search_web_run (self : AnswerAgent) (query : string) :
  truthy_opt (tavily_api_key self) = true ->
  search_web tavily_search self query =
  ([EvSearch query],
   Ret match tavily_search query with
       | Raise e => search_error_message e
       | Ret search_result =>
           match results search_result with
           | Some rs => format_hits 1 (firstn 3 rs) web_header
           | None => nothing_found_message
           end
       end).
Proof.
  intros H. unfold search_web. rewrite H.
  unfold tell, lift, bind, try_except, ret. simpl.
  destruct (tavily_search query) as [resp|e]; simpl.
  - destruct (results resp) as [rs|]; reflexivity.
  - reflexivity.
Qed.

Lemma search_web_returns (self : AnswerAgent) (query : string) :
  exists t msg, search_web tavily_search self query = (t, Ret msg).
Proof.
  destruct (truthy_opt (tavily_api_key self)) eqn:H.
  - rewrite (search_web_run self query H). eexists. eexists. reflexivity.
  - rewrite (search_web_key_missing self query H).
    eexists. eexists. reflexivity.
Qed.

Variable scorer : string -> string -> Z.

(** The orchestrator when the matcher hands back a non-empty answer. *)
Lemma get_answer_database (self : AnswerAgent) (query : string)
  (t : list event) (a : string) :
  find_best_match_in_database scorer self query default_threshold
    = (t, Ret (Some a)) ->
  a <> "" ->
  get_answer scorer tavily_search self query =
  (t, Ret {| source := "database"; answer_text := a |}).
Proof.
  intros E Ha. unfold get_answer. rewrite E. rewrite bind_pair_ret.
  simpl. apply truthy_true_iff in Ha. rewrite Ha. simpl.
  rewrite app_nil_r. reflexivity.
Qed.

(** The orchestrator when the matcher hands back [None] or the empty
    string. *)
Lemma get_answer_web (self : AnswerAgent) (query : string)
  (t t' : list event) (da : option string) (w : string) :
  find_best_match_in_database scorer self query default_threshold
    = (t, Ret da) ->
  truthy_opt da = false ->
  search_web tavily_search self query = (t', Ret w) ->
  get_answer scorer tavily_search self query =
  ((t ++ t')%list, Ret {| source := "web"; answer_text := w |}).
Proof.
  intros E Hda Ew. unfold get_answer. rewrite E. rewrite bind_pair_ret.
  rewrite Hda. rewrite Ew. rewrite bind_pair_ret. simpl.
  rewrite app_nil_r. reflexivity.
Qed.

End SearchFacts.

(** ** Facts about the sample collaborators *)

Lemma exact_scorer_nonneg : nonneg_scorer exact_scorer.
Proof.
  intros q c. unfold exact_scorer. destruct (q =? c); lia.
Qed.

Lemma exact_scorer_le_100 (q c : string) : (exact_scorer q c <= 100)%Z.
Proof.
  unfold exact_scorer. destruct (q =? c); lia.
Qed.

Lemma table_scorer_nonneg (tbl : list (string * Z)) :
  Forall (fun p => (0 <= snd p)%Z) tbl -> nonneg_scorer (table_scorer tbl).
Proof.
  intros H q c. induction H as [|[c0 s0] tbl Hs _ IH]; simpl.
  - lia.
  - destruct (c0 =? c); [exact Hs|exact IH].
Qed.

(** ** The matcher: guard, threshold and tie-break *)

(** C5.  When the query is empty or the table has no entry,
    [find_best_match_in_database] returns [None]: it does not raise, and
    its trace is empty, so no similarity score was computed.  This holds
    for every scorer and every threshold. *)
Theorem empty_query_or_table_no_match (scorer : string -> string -> Z)
  (self : AnswerAgent) (query : string) (threshold : Z) :
  query = "" \/ qa_database self = [] ->
  result (find_best_match_in_database scorer self query threshold)
    = Ret None /\
  trace (find_best_match_in_database scorer self query threshold) = [] /\
  no_score (trace (find_best_match_in_database scorer self query threshold)).
Proof.
  intros H. rewrite (find_best_match_guard scorer self query threshold H).
  repeat split. intros q c [].
Qed.

Lemma empty_query_or_table_no_match_witness :
  result (find_best_match_in_database exact_scorer
            (agent_of [voice_entry] None) "" 80%Z) = Ret None /\
  trace (find_best_match_in_database exact_scorer
            (agent_of [] None) "What is a voice assistant?" 80%Z) = [].
Proof.
  split.
  - apply (empty_query_or_table_no_match exact_scorer
             (agent_of [voice_entry] None) "" 80%Z).
    left. reflexivity.
  - apply (empty_query_or_table_no_match exact_scorer
             (agent_of [] None) "What is a voice assistant?" 80%Z).
    right. reflexivity.
Defined.

(** C2.  For a non-empty query and a non-empty table the default threshold
    is 80, inclusive: the table has a first best entry, and with [e] that
    entry and [s] its score, the matcher returns the stored answer of [e]
    when [80 <= s] and [None] when [s < 80]; a best score of exactly 80
    matches and a best score of 79 does not.  Scores are those of a scorer
    that is never negative, as the library's are. *)
Theorem threshold_80_inclusive (scorer : string -> string -> Z)
  (self : AnswerAgent) (query : string) :
  nonneg_scorer scorer ->
  query <> "" ->
  qa_database self <> [] ->
  default_threshold = 80%Z /\
  (exists e s, first_best_entry scorer query (qa_database self) e s) /\
  (forall e s,
     first_best_entry scorer query (qa_database self) e s ->
     ((80 <= s)%Z ->
      result (find_best_match_in_database scorer self query default_threshold)
        = Ret (Some (answer e))) /\
     ((s < 80)%Z ->
      result (find_best_match_in_database scorer self query default_threshold)
        = Ret None) /\
     (s = 80%Z ->
      result (find_best_match_in_database scorer self query default_threshold)
        = Ret (Some (answer e))) /\
     (s = 79%Z ->
      result (find_best_match_in_database scorer self query default_threshold)
        = Ret None)).
Proof.
  intros Hn Hq Hdb. split; [reflexivity|]. split.
  - apply first_best_entry_exists. exact Hdb.
  - intros e s Hfb.
    rewrite (find_best_match_run scorer self query default_threshold e s
               Hn Hq Hfb).
    unfold result, default_threshold. simpl.
    repeat split; intros Hs.
    + destruct (Z.leb_spec 80 s); [reflexivity|lia].
    + destruct (Z.leb_spec 80 s); [lia|reflexivity].
    + subst s. reflexivity.
    + subst s. reflexivity.
Qed.

Lemma threshold_80_inclusive_witness :
  result (find_best_match_in_database
            (table_scorer [("How do I reset?", 80%Z)])
            (agent_of [reset_entry] None)
            "how to reset" default_threshold) = Ret (Some "Hold the button.")
  /\
  result (find_best_match_in_database
            (table_scorer [("How do I reset?", 79%Z)])
            (agent_of [reset_entry] None)
            "how to reset" default_threshold) = Ret None.
Proof.
  assert (Hq : "how to reset" <> "") by discriminate.
  assert (Hdb : qa_database (agent_of [reset_entry] None) <> [])
    by discriminate.
  split.
  - assert (Hn : nonneg_scorer (table_scorer [("How do I reset?", 80%Z)])).
    { apply table_scorer_nonneg. repeat constructor. simpl. lia. }
    destruct (threshold_80_inclusive _ (agent_of [reset_entry] None)
                "how to reset" Hn Hq Hdb) as [_ [_ H]].
    destruct (H reset_entry 80%Z) as [_ [_ [H80 _]]].
    + exists [], []. repeat split; intros e' [].
    + exact (H80 eq_refl).
  - assert (Hn : nonneg_scorer (table_scorer [("How do I reset?", 79%Z)])).
    { apply table_scorer_nonneg. repeat constructor. simpl. lia. }
    destruct (threshold_80_inclusive _ (agent_of [reset_entry] None)
                "how to reset" Hn Hq Hdb) as [_ [_ H]].
    destruct (H reset_entry 79%Z) as [_ [_ [_ H79]]].
    + exists [], []. repeat split; intros e' [].
    + exact (H79 eq_refl).
Defined.

(** The matcher only ever computes scores: it sends no search request. *)
Lemma find_best_match_no_search (scorer : string -> string -> Z)
  (self : AnswerAgent) (query : string) (threshold : Z) :
  no_search (trace (find_best_match_in_database scorer self query threshold)).
Proof.
  intros q Hin. unfold find_best_match_in_database in Hin.
  destruct (negb (truthy query) ||
            match qa_database self with [] => true | _ => false end).
  - destruct Hin.
  - unfold extractOne in Hin. rewrite extractWithoutOrder_run in Hin.
    rewrite bind_pair_ret in Hin.
    assert (Hsc : ~ In (EvSearch q)
                      (map (EvScore query) (map question (qa_database self)))).
    { intros H. apply in_map_iff in H. destruct H as [c [E _]].
      discriminate E. }
    destruct (filter _ _) as [|x rest] in Hin; unfold ret in Hin;
      simpl in Hin; unfold trace in Hin.
    + rewrite app_nil_r in Hin. simpl in Hin. rewrite app_nil_r in Hin.
      exact (Hsc Hin).
    + rewrite app_nil_r in Hin. destruct (max_by_score x rest) as [bm sc].
      simpl in Hin.
      destruct (threshold <=? sc)%Z; simpl in Hin;
        rewrite app_nil_r in Hin; exact (Hsc Hin).
Qed.

(** C8.  Tie-break.  Let [e] be the first entry, in the table's order, that
    attains the highest score [s] (later entries may attain [s] too).  Then
    the library's best match is the question of [e] with score [s], [e] is
    the earliest entry whose question text equals that best-match string,
    and when [s] reaches the threshold the answer returned is that of [e]. *)
Theorem tie_break_first_maximum (scorer : string -> string -> Z)
  (self : AnswerAgent) (query : string) (threshold : Z)
  (e : QAEntry) (s : Z) :
  nonneg_scorer scorer ->
  query <> "" ->
  first_best_entry scorer query (qa_database self) e s ->
  (threshold <= s)%Z ->
  result (extractOne scorer query (map question (qa_database self)))
    = Ret (Some (question e, s)) /\
  earliest_with_question (qa_database self) (question e) e /\
  result (find_best_match_in_database scorer self query threshold)
    = Ret (Some (answer e)).
Proof.
  intros Hn Hq Hfb Hs. split; [|split].
  - rewrite (extractOne_first_best scorer query _ e s Hn Hfb). reflexivity.
  - exact (first_best_is_earliest scorer query _ e s Hfb).
  - rewrite (find_best_match_run scorer self query threshold e s Hn Hq Hfb).
    unfold result. simpl.
    destruct (Z.leb_spec threshold s); [reflexivity|lia].
Qed.

Lemma tie_break_first_maximum_witness :
  result (find_best_match_in_database
            (table_scorer [("Reset how?", 90%Z); ("How do I reset?", 90%Z)])
            (agent_of [{| question := "Reset how?"; answer := "First." |};
                       reset_entry] None)
            "how to reset" default_threshold) = Ret (Some "First.").
Proof.
  refine (proj2 (proj2 (tie_break_first_maximum
            (table_scorer [("Reset how?", 90%Z); ("How do I reset?", 90%Z)])
            (agent_of [{| question := "Reset how?"; answer := "First." |};
                       reset_entry] None)
            "how to reset" default_threshold
            {| question := "Reset how?"; answer := "First." |} 90%Z
            _ _ _ _))).
  - apply table_scorer_nonneg. repeat constructor; simpl; lia.
  - discriminate.
  - exists [], [reset_entry]. repeat split.
    + intros e' [].
    + intros e' [<-|[]]. simpl. lia.
  - unfold default_threshold. lia.
Defined.

(** ** The web search *)

(** C3.  [search_web] always returns a string and never raises.  Without a
    usable API key it returns the fixed unavailability message and its trace
    is empty: the provider is not contacted.  With a key, when the provider
    call raises [e], it returns the error message built from [str(e)]. *)
Theorem search_web_never_raises
  (tavily_search : string -> outcome SearchResponse)
  (self : AnswerAgent) (query : string) :
  (exists msg, result (search_web tavily_search self query) = Ret msg) /\
  (truthy_opt (tavily_api_key self) = false ->
   search_web tavily_search self query =
   ([], Ret "Web search is not available because the Tavily API key is missing.")) /\
  (truthy_opt (tavily_api_key self) = true ->
   forall e, tavily_search query = Raise e ->
   result (search_web tavily_search self query) =
   Ret ("Sorry, there was an error while searching the web: " ++ exn_str e)).
Proof.
  split; [|split].
  - destruct (search_web_returns tavily_search self query) as [t [msg E]].
    exists msg. rewrite E. reflexivity.
  - intros H. exact (search_web_key_missing tavily_search self query H).
  - intros H e He. rewrite (search_web_run tavily_search self query H).
    rewrite He. reflexivity.
Qed.

Lemma search_web_never_raises_witness :
  search_web (failing_provider (Exn "ConnectionError" "timed out"))
    (agent_of [] None) "What's the weather today?" =
  ([], Ret "Web search is not available because the Tavily API key is missing.")
  /\
  result (search_web (failing_provider (Exn "ConnectionError" "timed out"))
            (agent_of [] (Some "tvly-key")) "What's the weather today?") =
  Ret "Sorry, there was an error while searching the web: timed out".
Proof.
  split.
  - apply (search_web_never_raises
             (failing_provider (Exn "ConnectionError" "timed out"))
             (agent_of [] None) "What's the weather today?").
    reflexivity.
  - apply (proj2 (proj2 (search_web_never_raises
             (failing_provider (Exn "ConnectionError" "timed out"))
             (agent_of [] (Some "tvly-key")) "What's the weather today?"))
             eq_refl (Exn "ConnectionError" "timed out") eq_refl).
Defined.

(** The code's item for a result is the contract's: number, title line,
    excerpt line with an ellipsis, empty line. *)
Lemma format_hit_item (i : nat) (r : SearchHit) :
  format_hit i r = numbered_item (str_of_nat i) (shown_title r) (excerpt r).
Proof.
  unfold format_hit, numbered_item, shown_title, get_default, nl.
  destruct (title r) as [t|]; rewrite !string_app_assoc; reflexivity.
Qed.

(** The code's excerpt is the content cut to its first 300 characters. *)
Lemma excerpt_cut (r : SearchHit) : cut_to_300 (shown_content r) (excerpt r).
Proof.
  unfold cut_to_300, excerpt, shown_content, get_default.
  destruct (content r) as [c|]; split;
    (apply slice_to_prefix || apply length_slice_to_min).
Qed.

(** The cut is unique: two prefixes of the same length are equal. *)
Lemma cut_to_300_unique (c e1 e2 : string) :
  cut_to_300 c e1 -> cut_to_300 c e2 -> e1 = e2.
Proof.
  intros [[r1 E1] L1] [[r2 E2] L2]. rewrite <- L2 in L1. clear L2.
  subst c. revert e2 r1 r2 E2 L1.
  induction e1 as [|a e1 IH]; intros e2 r1 r2 E2 L1;
    destruct e2 as [|b e2]; simpl in *; try discriminate; [reflexivity|].
  injection E2 as Hab E2. subst b. f_equal.
  apply (IH e2 r1 r2 E2). lia.
Qed.

(** C4.  On a response that carries a results list, [search_web] returns
    the heading "Here's what I found on the web:" and an empty line,
    followed by one item for each of the first three results and nothing
    for any result after the third.  The items are numbered 1, 2, 3; each
    is the number, a dot and the title on one line, then, indented by three
    spaces, the content cut to its first 300 characters and followed by
    "...", then an empty line.  A result without title or content is shown
    with "No title" or "No content". *)
Theorem search_web_first_three
  (tavily_search : string -> outcome SearchResponse)
  (self : AnswerAgent) (query : string) (resp : SearchResponse)
  (rs : list SearchHit) :
  truthy_opt (tavily_api_key self) = true ->
  tavily_search query = Ret resp ->
  results resp = Some rs ->
  exists body,
    result (search_web tavily_search self query) =
      Ret ("Here's what I found on the web:"
           ++ String "010"%char "" ++ String "010"%char "" ++ body) /\
    match rs with
    | [] => body = ""
    | [r1] =>
        exists e1,
          cut_to_300 (shown_content r1) e1 /\
          body = numbered_item "1" (shown_title r1) e1
    | [r1; r2] =>
        exists e1 e2,
          cut_to_300 (shown_content r1) e1 /\
          cut_to_300 (shown_content r2) e2 /\
          body = numbered_item "1" (shown_title r1) e1
                 ++ numbered_item "2" (shown_title r2) e2
    | r1 :: r2 :: r3 :: _ =>
        exists e1 e2 e3,
          cut_to_300 (shown_content r1) e1 /\
          cut_to_300 (shown_content r2) e2 /\
          cut_to_300 (shown_content r3) e3 /\
          body = numbered_item "1" (shown_title r1) e1
                 ++ numbered_item "2" (shown_title r2) e2
                 ++ numbered_item "3" (shown_title r3) e3
    end.
Proof.
  intros Hkey Hresp Hrs.
  exists (numbered 1 (firstn 3 rs)). split.
  - rewrite (search_web_run tavily_search self query Hkey).
    rewrite Hresp, Hrs. unfold result. simpl snd.
    rewrite format_hits_numbered. unfold web_header, nl.
    rewrite !string_app_assoc. reflexivity.
  - destruct rs as [|r1 [|r2 [|r3 more]]]; cbn [firstn numbered];
      rewrite ?format_hit_item, ?string_app_nil_r.
    + reflexivity.
    + exists (excerpt r1). split; [apply excerpt_cut|reflexivity].
    + exists (excerpt r1), (excerpt r2).
      split; [apply excerpt_cut|]. split; [apply excerpt_cut|reflexivity].
    + exists (excerpt r1), (excerpt r2), (excerpt r3).
      split; [apply excerpt_cut|]. split; [apply excerpt_cut|].
      split; [apply excerpt_cut|reflexivity].
Qed.

Lemma search_web_first_three_witness :
  exists e1 e2 e3,
    result (search_web (const_provider {| results := Some five_hits |})
              (agent_of [] (Some "tvly-key")) "What's the weather today?") =
    Ret ("Here's what I found on the web:"
         ++ String "010"%char "" ++ String "010"%char ""
         ++ numbered_item "1" "Forecast" e1
         ++ numbered_item "2" "Radar" e2
         ++ numbered_item "3" "No title" e3) /\
    String.length e2 = 300%nat.
Proof.
  destruct (search_web_first_three
              (const_provider {| results := Some five_hits |})
              (agent_of [] (Some "tvly-key")) "What's the weather today?"
              {| results := Some five_hits |} five_hits
              eq_refl eq_refl eq_refl)
    as [body [E [e1 [e2 [e3 [_ [[_ L2] [_ Eb]]]]]]]].
  exists e1, e2, e3. split.
  - rewrite E, Eb. reflexivity.
  - rewrite L2. vm_compute. reflexivity.
Defined.

(** The text returned for the five sample results, character by
    character. *)
Example search_web_five_results :
  result (search_web (const_provider {| results := Some five_hits |})
            (agent_of [] (Some "tvly-key")) "What's the weather today?") =
  Ret ("Here's what I found on the web:"
       ++ String "010"%char "" ++ String "010"%char ""
       ++ "1. Forecast" ++ String "010"%char ""
       ++ "   Sunny...." ++ String "010"%char "" ++ String "010"%char ""
       ++ "2. Radar" ++ String "010"%char ""
       ++ "   " ++ repeat_string 300 "x" ++ "..."
       ++ String "010"%char "" ++ String "010"%char ""
       ++ "3. No title" ++ String "010"%char ""
       ++ "   No content..." ++ String "010"%char "" ++ String "010"%char "").
Proof. vm_compute. reflexivity. Qed.

(** The long content is cut to its first 300 characters; a missing title
    and content fall back to the defaults. *)
Example format_hit_long :
  format_hit 2 (sample_hit "Radar" (repeat_string 400 "x")) =
  "2. Radar" ++ nl ++ "   " ++ repeat_string 300 "x" ++ "..." ++ nl ++ nl.
Proof. vm_compute. reflexivity. Qed.

Example format_hit_defaults :
  format_hit 3 {| title := None; content := None |} =
  "3. No title" ++ nl ++ "   No content..." ++ nl ++ nl.
Proof. vm_compute. reflexivity. Qed.

(** ** The orchestrator *)

(** C1.  [get_answer] returns exactly one result.  It first runs the
    matcher; when the matcher hands back a non-empty answer [a], the result
    is tagged "database" with [a] and no search request is sent; when the
    matcher hands back nothing, the result is tagged "web" with the text
    returned by [search_web], run after the matcher.  The tag is one of the
    two and not both. *)
Theorem get_answer_one_source (scorer : string -> string -> Z)
  (tavily_search : string -> outcome SearchResponse)
  (self : AnswerAgent) (query : string) :
  nonneg_scorer scorer ->
  exists da w r,
    result (find_best_match_in_database scorer self query default_threshold)
      = Ret da /\
    result (search_web tavily_search self query) = Ret w /\
    result (get_answer scorer tavily_search self query) = Ret r /\
    (source r = "database" \/ source r = "web") /\
    ~ (source r = "database" /\ source r = "web") /\
    (forall a, da = Some a -> a <> "" ->
       r = {| source := "database"; answer_text := a |} /\
       trace (get_answer scorer tavily_search self query) =
       trace (find_best_match_in_database scorer self query default_threshold)
       /\ no_search (trace (get_answer scorer tavily_search self query))) /\
    (truthy_opt da = false ->
       r = {| source := "web"; answer_text := w |} /\
       trace (get_answer scorer tavily_search self query) =
       (trace (find_best_match_in_database scorer self query default_threshold)
        ++ trace (search_web tavily_search self query))%list).
Proof.
  intros Hn.
  destruct (find_best_match_returns scorer self query default_threshold Hn)
    as [da Hda].
  destruct (search_web_returns tavily_search self query) as [t' [w Hw]].
  destruct (find_best_match_in_database scorer self query default_threshold)
    as [t o] eqn:Efb.
  unfold result in Hda. simpl in Hda. subst o.
  exists da, w.
  destruct (truthy_opt da) eqn:Htr.
  - destruct da as [a|]; [|discriminate Htr]. simpl in Htr.
    assert (Ha : a <> "") by (apply truthy_true_iff; exact Htr).
    pose proof (get_answer_database tavily_search scorer self query t a
                  Efb Ha) as Eg.
    exists {| source := "database"; answer_text := a |}.
    rewrite Eg, Hw. unfold result, trace. simpl.
    repeat split.
    + left. reflexivity.
    + intros [_ H]. discriminate H.
    + injection H as <-. reflexivity.
    + intros q Hin.
      pose proof (find_best_match_no_search scorer self query
                    default_threshold q) as Hns.
      rewrite Efb in Hns. exact (Hns Hin).
    + discriminate H.
    + discriminate H.
  - pose proof (get_answer_web tavily_search scorer self query t t' da w
                  Efb Htr Hw) as Eg.
    exists {| source := "web"; answer_text := w |}.
    rewrite Eg, Hw. unfold result, trace. simpl.
    repeat split.
    + right. reflexivity.
    + intros [H _]. discriminate H.
    + subst da. simpl in Htr. apply truthy_false_iff in Htr. contradiction.
    + subst da. simpl in Htr. apply truthy_false_iff in Htr. contradiction.
    + subst da. simpl in Htr. apply truthy_false_iff in Htr. contradiction.
Qed.

Lemma get_answer_one_source_witness :
  result (get_answer exact_scorer (const_provider {| results := None |})
            (agent_of [voice_entry] None) "What is a voice assistant?") =
  Ret {| source := "database"; answer_text := "A voice assistant is..." |}.
Proof.
  destruct (get_answer_one_source exact_scorer
              (const_provider {| results := None |})
              (agent_of [voice_entry] None) "What is a voice assistant?"
              exact_scorer_nonneg)
    as [da [w [r [Hda [_ [Hr [_ [_ [Hdb _]]]]]]]]].
  vm_compute in Hda. injection Hda as Hda.
  destruct (Hdb "A voice assistant is..." (eq_sym Hda)) as [Er _].
  - discriminate.
  - rewrite Hr, Er. reflexivity.
Defined.

(** C10.  A result tagged "database" carries a non-empty answer.  When the
    matcher hands back the empty string, the orchestrator treats it as no
    match: the result is tagged "web" with the text of [search_web].  This is
    so in particular when the first best entry reaches the threshold and its
    stored answer is the empty string. *)
Theorem database_answer_nonempty (scorer : string -> string -> Z)
  (tavily_search : string -> outcome SearchResponse)
  (self : AnswerAgent) (query : string) :
  (forall r,
     result (get_answer scorer tavily_search self query) = Ret r ->
     source r = "database" -> answer_text r <> "") /\
  (result (find_best_match_in_database scorer self query default_threshold)
     = Ret (Some "") ->
   exists w,
     result (search_web tavily_search self query) = Ret w /\
     result (get_answer scorer tavily_search self query) =
     Ret {| source := "web"; answer_text := w |}) /\
  (forall e s,
     nonneg_scorer scorer -> query <> "" ->
     first_best_entry scorer query (qa_database self) e s ->
     (default_threshold <= s)%Z -> answer e = "" ->
     exists w,
       result (search_web tavily_search self query) = Ret w /\
       result (get_answer scorer tavily_search self query) =
       Ret {| source := "web"; answer_text := w |}).
Proof.
  destruct (search_web_returns tavily_search self query) as [t' [w Hw]].
  assert (Hempty :
    result (find_best_match_in_database scorer self query default_threshold)
      = Ret (Some "") ->
    exists w0,
      result (search_web tavily_search self query) = Ret w0 /\
      result (get_answer scorer tavily_search self query) =
      Ret {| source := "web"; answer_text := w0 |}).
  { intros H.
    destruct (find_best_match_in_database scorer self query default_threshold)
      as [t o] eqn:Efb.
    unfold result in H. simpl in H. subst o.
    exists w. rewrite Hw.
    rewrite (get_answer_web tavily_search scorer self query t t' (Some "") w
               Efb eq_refl Hw).
    split; reflexivity. }
  split; [|split].
  - intros r Hr Hsrc.
    destruct (find_best_match_in_database scorer self query default_threshold)
      as [t o] eqn:Efb.
    destruct o as [da|ex].
    + destruct (truthy_opt da) eqn:Htr.
      * destruct da as [a|]; [|discriminate Htr]. simpl in Htr.
        assert (Ha : a <> "") by (apply truthy_true_iff; exact Htr).
        rewrite (get_answer_database tavily_search scorer self query t a
                   Efb Ha) in Hr.
        unfold result in Hr. simpl in Hr. injection Hr as <-. exact Ha.
      * rewrite (get_answer_web tavily_search scorer self query t t' da w
                   Efb Htr Hw) in Hr.
        unfold result in Hr. simpl in Hr. injection Hr as <-.
        discriminate Hsrc.
    + unfold get_answer in Hr. rewrite Efb in Hr.
      rewrite bind_pair_raise in Hr. discriminate Hr.
  - exact Hempty.
  - intros e s Hn Hq Hfb Hs Hans. apply Hempty.
    rewrite (find_best_match_run scorer self query default_threshold e s
               Hn Hq Hfb).
    unfold result. simpl.
    destruct (Z.leb_spec default_threshold s); [|lia].
    rewrite Hans. reflexivity.
Qed.

Lemma database_answer_nonempty_witness :
  result (get_answer exact_scorer (const_provider {| results := None |})
            (agent_of [{| question := "What is a voice assistant?";
                          answer := "" |}] None)
            "What is a voice assistant?") =
  Ret {| source := "web"; answer_text := key_missing_message |}.
Proof.
  destruct (proj1 (proj2 (database_answer_nonempty exact_scorer
              (const_provider {| results := None |})
              (agent_of [{| question := "What is a voice assistant?";
                            answer := "" |}] None)
              "What is a voice assistant?")) eq_refl)
    as [w [Hw Hg]].
  vm_compute in Hw. injection Hw as Hw.
  rewrite Hg. rewrite <- Hw. reflexivity.
Defined.

(** ** Loading the table *)

(** C9.  When the file cannot be opened or read, or its text is not valid
    JSON, [_load_qa_database] returns the empty table without raising, the
    agent is constructed with that table, and then every query is answered
    from the web path: no score is computed and the result is tagged "web"
    with the text of [search_web]. *)
Theorem load_failure_empty_database
  (read_file : string -> outcome string)
  (json_load : string -> outcome QADatabase)
  (getenv_tavily : option string) (qa_database_path : string) :
  (exists e, read_file qa_database_path = Raise e) \/
  (exists text e, read_file qa_database_path = Ret text /\
                  json_load text = Raise e) ->
  result (_load_qa_database read_file json_load qa_database_path) = Ret [] /\
  result (init_agent read_file json_load getenv_tavily qa_database_path) =
    Ret {| qa_database := []; tavily_api_key := getenv_tavily |} /\
  (forall self,
     result (init_agent read_file json_load getenv_tavily qa_database_path)
       = Ret self ->
     forall scorer tavily_search query,
     exists w,
       result (search_web tavily_search self query) = Ret w /\
       result (get_answer scorer tavily_search self query) =
         Ret {| source := "web"; answer_text := w |} /\
       no_score (trace (get_answer scorer tavily_search self query))).
Proof.
  intros H.
  assert (El : _load_qa_database read_file json_load qa_database_path
               = ([], Ret [])).
  { unfold _load_qa_database, lift.
    destruct H as [[e He]|[text [e [Ht He]]]].
    - rewrite He. reflexivity.
    - rewrite Ht. rewrite bind_pair_ret. simpl. rewrite He. reflexivity. }
  assert (Ei : init_agent read_file json_load getenv_tavily qa_database_path
               = ([], Ret {| qa_database := [];
                             tavily_api_key := getenv_tavily |})).
  { unfold init_agent. rewrite El. reflexivity. }
  split; [rewrite El; reflexivity|]. split; [rewrite Ei; reflexivity|].
  intros self Hself scorer tavily_search query.
  rewrite Ei in Hself. unfold result in Hself. simpl in Hself.
  injection Hself as <-.
  destruct (search_web_returns tavily_search
              {| qa_database := []; tavily_api_key := getenv_tavily |} query)
    as [t' [w Hw]].
  exists w.
  pose proof (find_best_match_guard scorer
                {| qa_database := []; tavily_api_key := getenv_tavily |}
                query default_threshold (or_intror eq_refl)) as Efb.
  rewrite (get_answer_web tavily_search scorer _ query [] t' None w
             Efb eq_refl Hw).
  rewrite Hw. unfold result, trace. simpl. repeat split.
  intros q c Hin.
  assert (Hsw : forall ev, In ev t' -> ev = EvSearch query).
  { destruct (truthy_opt getenv_tavily) eqn:Hk.
    - rewrite (search_web_run tavily_search
                 {| qa_database := []; tavily_api_key := getenv_tavily |}
                 query Hk) in Hw.
      injection Hw as <- _. intros ev [<-|[]]. reflexivity.
    - rewrite (search_web_key_missing tavily_search
                 {| qa_database := []; tavily_api_key := getenv_tavily |}
                 query Hk) in Hw.
      injection Hw as <- _. intros ev []. }
  specialize (Hsw _ Hin). discriminate Hsw.
Qed.

Lemma load_failure_empty_database_witness :
  result (_load_qa_database
            (fun _ => Raise (Exn "FileNotFoundError" "qa_database.json"))
            (fun _ => Ret [voice_entry]) "qa_database.json") = Ret [] /\
  result (_load_qa_database
            (fun _ => Ret "{not json")
            (fun _ => Raise (Exn "JSONDecodeError" "Expecting property name"))
            "qa_database.json") = Ret [].
Proof.
  split.
  - apply (load_failure_empty_database
             (fun _ => Raise (Exn "FileNotFoundError" "qa_database.json"))
             (fun _ => Ret [voice_entry]) None "qa_database.json").
    left. eexists. reflexivity.
  - apply (load_failure_empty_database
             (fun _ => Ret "{not json")
             (fun _ => Raise (Exn "JSONDecodeError" "Expecting property name"))
             None "qa_database.json").
    right. eexists. eexists. split; reflexivity.
Defined.

(** ** Exact matches *)

(** C6, as amended.  Let the query be non-empty, equal to the question of a
    stored entry, and rated 100 against itself by a scorer whose scores lie
    between 0 and 100.  Then the best score is 100, the best match is the
    question of the first entry [e1] rated 100, and the matcher returns the
    stored answer of [e1].  When every entry rated 100 bears the query as
    its question, [e1] is the earliest entry whose question is the query.
    When the answer of [e1] is not empty, [get_answer] tags it "database". *)
Theorem exact_match_first_entry (scorer : string -> string -> Z)
  (tavily_search : string -> outcome SearchResponse)
  (self : AnswerAgent) (query : string) (e : QAEntry) :
  nonneg_scorer scorer ->
  (forall c, (scorer query c <= 100)%Z) ->
  query <> "" ->
  In e (qa_database self) ->
  question e = query ->
  scorer query query = 100%Z ->
  exists e1,
    first_best_entry scorer query (qa_database self) e1 100%Z /\
    result (extractOne scorer query (map question (qa_database self)))
      = Ret (Some (question e1, 100%Z)) /\
    result (find_best_match_in_database scorer self query default_threshold)
      = Ret (Some (answer e1)) /\
    ((forall e', In e' (qa_database self) ->
                 scorer query (question e') = 100%Z -> question e' = query) ->
     earliest_with_question (qa_database self) query e1) /\
    (answer e1 <> "" ->
     result (get_answer scorer tavily_search self query) =
     Ret {| source := "database"; answer_text := answer e1 |}).
Proof.
  intros Hn Hle Hq Hin He H100.
  destruct (first_best_entry_exists scorer query (qa_database self))
    as [e1 [s Hfb]].
  { intros E. rewrite E in Hin. destruct Hin. }
  assert (Hs : s = 100%Z).
  { destruct Hfb as [before [after [Edb [Es [Hb Ha]]]]].
    assert (Hup : (s <= 100)%Z) by (rewrite <- Es; apply Hle).
    rewrite Edb in Hin. apply in_app_or in Hin.
    destruct Hin as [Hin|[<-|Hin]].
    - specialize (Hb e Hin). rewrite He, H100 in Hb. lia.
    - rewrite He, H100 in Es. symmetry. exact Es.
    - specialize (Ha e Hin). rewrite He, H100 in Ha. lia. }
  subst s. exists e1.
  pose proof (find_best_match_run scorer self query default_threshold
                e1 100%Z Hn Hq Hfb) as Erun.
  change (default_threshold <=? 100)%Z with true in Erun.
  split; [exact Hfb|]. split; [|split; [|split]].
  - rewrite (extractOne_first_best scorer query _ e1 100%Z Hn Hfb).
    reflexivity.
  - rewrite Erun. reflexivity.
  - intros Honly.
    pose proof (first_best_is_earliest scorer query _ e1 100%Z Hfb) as Hear.
    assert (Eq1 : question e1 = query).
    { destruct Hfb as [before [after [Edb [Es _]]]].
      apply Honly; [|exact Es].
      rewrite Edb. apply in_or_app. right. left. reflexivity. }
    rewrite Eq1 in Hear. exact Hear.
  - intros Hans.
    rewrite (get_answer_database tavily_search scorer self query _ _
               Erun Hans).
    reflexivity.
Qed.

Lemma exact_match_first_entry_witness :
  result (get_answer exact_scorer (const_provider {| results := None |})
            (agent_of [reset_entry; voice_entry] None)
            "What is a voice assistant?") =
  Ret {| source := "database"; answer_text := "A voice assistant is..." |}.
Proof.
  destruct (exact_match_first_entry exact_scorer
              (const_provider {| results := None |})
              (agent_of [reset_entry; voice_entry] None)
              "What is a voice assistant?" voice_entry
              exact_scorer_nonneg
              (exact_scorer_le_100 "What is a voice assistant?"))
    as [e1 [_ [_ [Hfb [_ Hg]]]]].
  - discriminate.
  - right. left. reflexivity.
  - reflexivity.
  - reflexivity.
  - assert (E : @Ret (option string) (Some (answer e1)) =
                 Ret (Some "A voice assistant is...")).
    { rewrite <- Hfb. reflexivity. }
    injection E as E. rewrite E in Hg. apply Hg. discriminate.
Defined.

(** C6, as stated, fails on three inputs, each with a query equal to a
    stored question.  The empty query is stopped by the guard and gets no
    match.  When two entries bear the query as question, the answer of the
    second is never returned.  When the stored answer is the empty string,
    the result is tagged "web", not "database". *)
Lemma exact_match_counterexample :
  (In {| question := ""; answer := "A" |}
      (qa_database (agent_of [{| question := ""; answer := "A" |}] None)) /\
   result (find_best_match_in_database exact_scorer
             (agent_of [{| question := ""; answer := "A" |}] None)
             "" default_threshold) = Ret None /\
   ~ answered_from_entry exact_scorer (const_provider {| results := None |})
       (agent_of [{| question := ""; answer := "A" |}] None)
       "" {| question := ""; answer := "A" |}) /\
  (In {| question := "How do I reset?"; answer := "Unplug it." |}
      (qa_database (agent_of
         [reset_entry;
          {| question := "How do I reset?"; answer := "Unplug it." |}]
         None)) /\
   result (find_best_match_in_database exact_scorer
             (agent_of
                [reset_entry;
                 {| question := "How do I reset?"; answer := "Unplug it." |}]
                None)
             "How do I reset?" default_threshold)
     = Ret (Some "Hold the button.") /\
   ~ answered_from_entry exact_scorer (const_provider {| results := None |})
       (agent_of
          [reset_entry;
           {| question := "How do I reset?"; answer := "Unplug it." |}]
          None)
       "How do I reset?"
       {| question := "How do I reset?"; answer := "Unplug it." |}) /\
  (In {| question := "How do I reset?"; answer := "" |}
      (qa_database (agent_of
         [{| question := "How do I reset?"; answer := "" |}] None)) /\
   result (get_answer exact_scorer (const_provider {| results := None |})
             (agent_of [{| question := "How do I reset?"; answer := "" |}]
                None)
             "How do I reset?")
     = Ret {| source := "web"; answer_text := key_missing_message |} /\
   ~ answered_from_entry exact_scorer (const_provider {| results := None |})
       (agent_of [{| question := "How do I reset?"; answer := "" |}] None)
       "How do I reset?" {| question := "How do I reset?"; answer := "" |}).
Proof.
  split; [|split].
  - split; [left; reflexivity|]. split; [reflexivity|].
    intros [_ [H _]]. discriminate H.
  - split; [right; left; reflexivity|]. split; [reflexivity|].
    intros [_ [H _]]. discriminate H.
  - split; [left; reflexivity|]. split; [reflexivity|].
    intros [_ [_ [r [Hr Hs]]]].
    injection Hr as <-. discriminate Hs.
Qed.

(** ** The polling loops *)

Lemma terminal_false_inv (r : TranscriptionResult) :
  terminal r = false ->
  (status r =? "completed") = false /\ (status r =? "error") = false.
Proof.
  unfold terminal. intros H. apply orb_false_iff in H. exact H.
Qed.


(** Either the first [n] polls are all in progress, or one of them is the
    first terminal response. *)
Lemma first_terminal_or_in_progress
  (poll : nat -> outcome TranscriptionResult) :
  always_responds poll ->
  forall n,
    in_progress_until poll 0 n \/
    exists k r, (k < n)%nat /\ first_terminal poll k r.
Proof.
  intros Hall. induction n as [|n IH].
  - left. intros j Hj. lia.
  - destruct IH as [Hprog|[k [r [Hk Hft]]]].
    + destruct (Hall n) as [r Hr].
      destruct (terminal r) eqn:Ht.
      * right. exists n, r. split; [lia|]. repeat split; assumption.
      * left. intros j Hj.
        destruct (Nat.eq_dec j n) as [->|Hne].
        -- exists r. split; assumption.
        -- apply Hprog. lia.
    + right. exists k, r. split; [lia|exact Hft].
Qed.

Section AudioProcessingFacts.

Variable poll : nat -> outcome TranscriptionResult.
Variable show_progress : bool.

Lemma ap_iterate_returned (fuel : nat) (v : option string) :
  AudioProcessing.iterate poll show_progress fuel (Returned v) = Returned v.
Proof. destruct fuel; reflexivity. Qed.

Lemma ap_loop_body_terminal (n dots slept : nat) (r : TranscriptionResult) :
  poll n = Ret r -> terminal r = true ->
  AudioProcessing.loop_body poll show_progress n dots slept
    = Returned (loop_value r).
Proof.
  intros Hp Ht. unfold AudioProcessing.loop_body, loop_value. rewrite Hp.
  unfold terminal in Ht.
  destruct (status r =? "completed").
  - destruct show_progress; reflexivity.
  - simpl in Ht. rewrite Ht. reflexivity.
Qed.

Lemma st_progress_accepted (r : TranscriptionResult) (p : Z) :
  percent r = Some p -> percent_accepted r = true ->
  st_progress p = Ret tt.
Proof.
  unfold percent_accepted, st_progress. intros -> H. rewrite H. reflexivity.
Qed.

Lemma st_progress_rejected (r : TranscriptionResult) :
  percent_accepted r = false ->
  exists p e, percent r = Some p /\ st_progress p = Raise e.
Proof.
  unfold percent_accepted, st_progress.
  destruct (percent r) as [p|]; [|discriminate].
  intros H. exists p. rewrite H. eexists. split; reflexivity.
Qed.

(** An in-progress response is followed by another poll when the display is
    off or accepts its percent. *)
Lemma ap_loop_body_in_progress (n dots slept : nat)
  (r : TranscriptionResult) :
  poll n = Ret r -> terminal r = false ->
  show_progress = false \/ percent_accepted r = true ->
  AudioProcessing.loop_body poll show_progress n dots slept
    = Polling (S n) (if show_progress then dots mod 3 + 1 else dots)
              (slept + 2).
Proof.
  intros Hp Ht Hacc. unfold AudioProcessing.loop_body. rewrite Hp.
  destruct (terminal_false_inv r Ht) as [-> ->].
  destruct show_progress; [|reflexivity].
  destruct Hacc as [Hacc|Hacc]; [discriminate Hacc|].
  destruct (percent r) as [p|] eqn:Hper; [|reflexivity].
  rewrite (st_progress_accepted r p Hper Hacc). reflexivity.
Qed.

(** With the display on, an in-progress response whose percent is rejected
    ends the function with [None]. *)
Lemma ap_loop_body_rejected (n dots slept : nat) (r : TranscriptionResult) :
  poll n = Ret r -> terminal r = false ->
  show_progress = true -> percent_accepted r = false ->
  AudioProcessing.loop_body poll show_progress n dots slept = Returned None.
Proof.
  intros Hp Ht Hsp Hrej. unfold AudioProcessing.loop_body. rewrite Hp.
  destruct (terminal_false_inv r Ht) as [-> ->]. rewrite Hsp.
  destruct (st_progress_rejected r Hrej) as [p [e [Hper He]]].
  rewrite Hper, He. reflexivity.
Qed.

Lemma ap_loop_body_in_progress_cases (n dots slept : nat)
  (r : TranscriptionResult) :
  poll n = Ret r -> terminal r = false ->
  AudioProcessing.loop_body poll show_progress n dots slept
    = Polling (S n) (if show_progress then dots mod 3 + 1 else dots)
              (slept + 2) \/
  AudioProcessing.loop_body poll show_progress n dots slept = Returned None.
Proof.
  intros Hp Ht.
  destruct (percent_accepted r) eqn:Hacc.
  - left. apply ap_loop_body_in_progress with (r := r); try assumption.
    right. exact Hacc.
  - destruct (Bool.bool_dec show_progress true) as [Hsp|Hsp].
    + right. apply ap_loop_body_rejected with (r := r); assumption.
    + left. apply ap_loop_body_in_progress with (r := r); try assumption.
      left. apply not_true_is_false. exact Hsp.
Qed.



(** If the body returns [v] at poll [i + n] and the polls before it are in
    progress, the loop started at poll [i] returns [v], or [None] when the
    display rejected a percent on the way. *)
Lemma ap_iterate_exit_at_or_none (v : option string) (n : nat) :
  forall i dots slept fuel,
    (forall d s, AudioProcessing.loop_body poll show_progress (i + n) d s
                 = Returned v) ->
    in_progress_until poll i (i + n) ->
    (n < fuel)%nat ->
    AudioProcessing.iterate poll show_progress fuel (Polling i dots slept)
      = Returned v \/
    AudioProcessing.iterate poll show_progress fuel (Polling i dots slept)
      = Returned None.
Proof.
  induction n as [|n IH]; intros i dots slept fuel Hb Hprog Hf;
    (destruct fuel as [|fuel]; [lia|]); simpl.
  - rewrite Nat.add_0_r in Hb. rewrite Hb. left. apply ap_iterate_returned.
  - destruct (Hprog i) as [r0 [Hp0 Ht0]]; [lia|].
    destruct (ap_loop_body_in_progress_cases i dots slept r0 Hp0 Ht0)
      as [E|E]; rewrite E.
    + apply IH.
      * intros d s. replace (S i + n)%nat with (i + S n)%nat by lia.
        apply Hb.
      * intros j Hj. apply Hprog. lia.
      * lia.
    + right. apply ap_iterate_returned.
Qed.

(** The same when the display is off or accepts every percent on the way:
    the loop returns [v]. *)
Lemma ap_iterate_exit_at (v : option string) (n : nat) :
  forall i dots slept fuel,
    (forall d s, AudioProcessing.loop_body poll show_progress (i + n) d s
                 = Returned v) ->
    in_progress_until poll i (i + n) ->
    show_progress = false \/ percents_accepted_until poll (i + n) ->
    (n < fuel)%nat ->
    AudioProcessing.iterate poll show_progress fuel (Polling i dots slept)
      = Returned v.
Proof.
  induction n as [|n IH]; intros i dots slept fuel Hb Hprog Hacc Hf;
    (destruct fuel as [|fuel]; [lia|]); simpl.
  - rewrite Nat.add_0_r in Hb. rewrite Hb. apply ap_iterate_returned.
  - destruct (Hprog i) as [r0 [Hp0 Ht0]]; [lia|].
    rewrite (ap_loop_body_in_progress i dots slept r0 Hp0 Ht0).
    + apply IH.
      * intros d s. replace (S i + n)%nat with (i + S n)%nat by lia.
        apply Hb.
      * intros j Hj. apply Hprog. lia.
      * destruct Hacc as [Hacc|Hacc]; [left; exact Hacc|right].
        intros j r' Hj. apply Hacc. lia.
      * lia.
    + destruct Hacc as [Hacc|Hacc]; [left; exact Hacc|right].
      apply (Hacc i r0); [lia|exact Hp0].
Qed.

(** Once a terminal response arrives the loop returns its value. *)
Lemma ap_iterate_terminal (n : nat) (r : TranscriptionResult) :
  forall i dots slept fuel,
    poll (i + n) = Ret r -> terminal r = true ->
    in_progress_until poll i (i + n) ->
    show_progress = false \/ percents_accepted_until poll (i + n) ->
    (n < fuel)%nat ->
    AudioProcessing.iterate poll show_progress fuel (Polling i dots slept)
      = Returned (loop_value r).
Proof.
  intros i dots slept fuel Hp Ht Hprog Hacc Hf.
  apply (ap_iterate_exit_at (loop_value r) n i dots slept fuel);
    try assumption.
  intros d s. apply ap_loop_body_terminal; assumption.
Qed.

(** The start of the page variant: past the upload and the start request,
    the function runs the loop from poll 0. *)
Lemma ap_transcribe_started (upload_url : option string) (fuel : nat) :
  truthy_opt upload_url = true ->
  AudioProcessing.transcribe_audio poll show_progress upload_url
    (Ret 200%Z) fuel
  = AudioProcessing.iterate poll show_progress fuel (Polling 0 0 0).
Proof.
  intros Hup. unfold AudioProcessing.transcribe_audio. rewrite Hup. simpl.
  destruct show_progress; reflexivity.
Qed.

End AudioProcessingFacts.

Section SpeechRecognitionFacts.

Variable poll : nat -> outcome TranscriptionResult.
Variable output_file : option string.
Variable write_file : string -> string -> outcome unit.

Lemma sr_iterate_returned (fuel : nat) (v : option string) :
  SpeechRecognition.iterate poll output_file write_file fuel (Returned v)
    = Returned v.
Proof. destruct fuel; reflexivity. Qed.

(** On a terminal response the body returns the loop value, or [None] when
    the response is completed and saving the text raised. *)
Lemma sr_loop_body_terminal (n dots slept : nat) (r : TranscriptionResult) :
  poll n = Ret r -> terminal r = true ->
  SpeechRecognition.loop_body poll output_file write_file n dots slept
    = Returned (loop_value r) \/
  (SpeechRecognition.loop_body poll output_file write_file n dots slept
     = Returned None /\
   status r = "completed" /\
   exists path e, output_file = Some path /\
                  write_file path (text r) = Raise e).
Proof.
  intros Hp Ht. unfold SpeechRecognition.loop_body, loop_value. rewrite Hp.
  unfold terminal in Ht.
  destruct (String.eqb_spec (status r) "completed") as [Hc|Hc].
  - destruct output_file as [path|]; [|left; reflexivity].
    destruct (truthy path); [|left; reflexivity].
    destruct (write_file path (text r)) as [u|e] eqn:Hw.
    + left. reflexivity.
    + right. split; [reflexivity|]. split; [exact Hc|].
      exists path, e. split; [reflexivity|exact Hw].
  - simpl in Ht. rewrite Ht. left. reflexivity.
Qed.

Lemma sr_loop_body_terminal_saved (n dots slept : nat)
  (r : TranscriptionResult) :
  writes_succeed write_file ->
  poll n = Ret r -> terminal r = true ->
  SpeechRecognition.loop_body poll output_file write_file n dots slept
    = Returned (loop_value r).
Proof.
  intros Hw Hp Ht.
  destruct (sr_loop_body_terminal n dots slept r Hp Ht)
    as [E|[_ [_ [path [e [_ He]]]]]].
  - exact E.
  - rewrite Hw in He. discriminate He.
Qed.

Lemma sr_loop_body_in_progress (n dots slept : nat)
  (r : TranscriptionResult) :
  poll n = Ret r -> terminal r = false ->
  SpeechRecognition.loop_body poll output_file write_file n dots slept
    = Polling (S n) dots (slept + 3).
Proof.
  intros Hp Ht. unfold SpeechRecognition.loop_body. rewrite Hp.
  destruct (terminal_false_inv r Ht) as [-> ->]. reflexivity.
Qed.



Lemma sr_iterate_terminal (n : nat) (r : TranscriptionResult) :
  writes_succeed write_file ->
  forall i dots slept fuel,
    poll (i + n) = Ret r -> terminal r = true ->
    in_progress_until poll i (i + n) ->
    (n < fuel)%nat ->
    SpeechRecognition.iterate poll output_file write_file fuel
      (Polling i dots slept) = Returned (loop_value r).
Proof.
  intros Hw.
  induction n as [|n IH]; intros i dots slept fuel Hp Ht Hprog Hf;
    (destruct fuel as [|fuel]; [lia|]); simpl.
  - rewrite Nat.add_0_r in Hp.
    rewrite (sr_loop_body_terminal_saved i dots slept r Hw Hp Ht).
    apply sr_iterate_returned.
  - destruct (Hprog i) as [r0 [Hp0 Ht0]]; [lia|].
    rewrite (sr_loop_body_in_progress i dots slept r0 Hp0 Ht0).
    apply IH.
    + rewrite <- Hp. f_equal. lia.
    + exact Ht.
    + intros j Hj. apply Hprog. lia.
    + lia.
Qed.

End SpeechRecognitionFacts.

(** If the body returns [v] at poll [i + n] and the polls before it are in
    progress, the loop started at poll [i] returns [v]. *)
Lemma sr_iterate_exit_at (poll : nat -> outcome TranscriptionResult)
  (output_file : option string)
  (write_file : string -> string -> outcome unit)
  (v : option string) (n : nat) :
  forall i dots slept fuel,
    (forall d s,
       SpeechRecognition.loop_body poll output_file write_file (i + n) d s
       = Returned v) ->
    in_progress_until poll i (i + n) ->
    (n < fuel)%nat ->
    SpeechRecognition.iterate poll output_file write_file fuel
      (Polling i dots slept) = Returned v.
Proof.
  induction n as [|n IH]; intros i dots slept fuel Hb Hprog Hf;
    (destruct fuel as [|fuel]; [lia|]); simpl.
  - rewrite Nat.add_0_r in Hb. rewrite Hb. apply sr_iterate_returned.
  - destruct (Hprog i) as [r0 [Hp0 Ht0]]; [lia|].
    rewrite (sr_loop_body_in_progress poll output_file write_file i dots
               slept r0 Hp0 Ht0).
    apply IH.
    + intros d s. replace (S i + n)%nat with (i + S n)%nat by lia. apply Hb.
    + intros j Hj. apply Hprog. lia.
    + lia.
Qed.


(** Unless it returns [None] before the loop, each function runs its loop
    from poll 0, the upload and the start of the job having succeeded. *)
Lemma ap_transcribe_cases (poll : nat -> outcome TranscriptionResult)
  (show_progress : bool) (upload_url : option string)
  (response : outcome Z) (fuel : nat) :
  AudioProcessing.transcribe_audio poll show_progress upload_url response
    fuel = Returned None \/
  (truthy_opt upload_url = true /\ response = Ret 200%Z /\
   AudioProcessing.transcribe_audio poll show_progress upload_url response
     fuel = AudioProcessing.iterate poll show_progress fuel (Polling 0 0 0)).
Proof.
  unfold AudioProcessing.transcribe_audio.
  destruct (truthy_opt upload_url); simpl; [|left; reflexivity].
  destruct response as [code|e]; [|left; reflexivity].
  destruct (Z.eqb_spec code 200) as [->|_]; [|left; reflexivity].
  right. split; [reflexivity|]. split; [reflexivity|].
  destruct show_progress; reflexivity.
Qed.

Lemma sr_transcribe_cases (poll : nat -> outcome TranscriptionResult)
  (output_file : option string)
  (write_file : string -> string -> outcome unit)
  (upload_url : option string) (response : outcome Z) (fuel : nat) :
  SpeechRecognition.transcribe_audio poll output_file write_file upload_url
    response fuel = Returned None \/
  (truthy_opt upload_url = true /\ response = Ret 200%Z /\
   SpeechRecognition.transcribe_audio poll output_file write_file upload_url
     response fuel =
   SpeechRecognition.iterate poll output_file write_file fuel
     (Polling 0 0 0)).
Proof.
  unfold SpeechRecognition.transcribe_audio.
  destruct (truthy_opt upload_url); simpl; [|left; reflexivity].
  destruct response as [code|e]; [|left; reflexivity].
  destruct (Z.eqb_spec code 200) as [->|_]; [|left; reflexivity].
  right. repeat split.
Qed.








(** ** Further properties of the matcher *)

(** Past the guard, every stored question is scored exactly once, in table
    order, whatever the scores and the threshold are. *)
Theorem matcher_scores_each_question_once (scorer : string -> string -> Z)
  (self : AnswerAgent) (query : string) (threshold : Z) :
  query <> "" ->
  qa_database self <> [] ->
  trace (find_best_match_in_database scorer self query threshold) =
    map (EvScore query) (map question (qa_database self)) /\
  List.length (trace (find_best_match_in_database scorer self query threshold))
    = List.length (qa_database self).
Proof.
  intros Hq Hdb.
  assert (E : trace (find_best_match_in_database scorer self query threshold)
              = map (EvScore query) (map question (qa_database self))).
  { unfold find_best_match_in_database.
    apply truthy_true_iff in Hq. rewrite Hq. simpl.
    destruct (qa_database self) as [|e0 db0] eqn:Edb; [contradiction|].
    rewrite <- Edb. clear Edb Hdb e0 db0.
    unfold extractOne. rewrite extractWithoutOrder_run.
    rewrite bind_pair_ret.
    destruct (filter _ _) as [|x rest]; unfold ret; simpl; unfold trace.
    - rewrite app_nil_r. simpl. apply app_nil_r.
    - rewrite app_nil_r. destruct (max_by_score x rest) as [bm sc]. simpl.
      destruct (threshold <=? sc)%Z; simpl; apply app_nil_r. }
  split; [exact E|]. rewrite E. rewrite !length_map. reflexivity.
Qed.

Lemma matcher_scores_each_question_once_witness :
  trace (find_best_match_in_database exact_scorer
           (agent_of [reset_entry; voice_entry] None) "hello" 80%Z) =
  [EvScore "hello" "How do I reset?";
   EvScore "hello" "What is a voice assistant?"].
Proof.
  apply (matcher_scores_each_question_once exact_scorer
           (agent_of [reset_entry; voice_entry] None) "hello" 80%Z);
    discriminate.
Defined.

(** The matcher reports no match exactly when the query is empty, the table
    is empty, or every stored question scores below the threshold. *)
Theorem matcher_none_iff (scorer : string -> string -> Z)
  (self : AnswerAgent) (query : string) (threshold : Z) :
  nonneg_scorer scorer ->
  (result (find_best_match_in_database scorer self query threshold)
     = Ret None
   <->
   query = "" \/ qa_database self = [] \/
   (forall e, In e (qa_database self) ->
              (scorer query (question e) < threshold)%Z)).
Proof.
  intros Hn.
  destruct (string_dec query "") as [Hq|Hq].
  { rewrite find_best_match_guard by (left; exact Hq).
    split; [intros _; left; exact Hq|reflexivity]. }
  destruct (qa_database self) as [|e0 db0] eqn:Edb.
  { rewrite find_best_match_guard by (right; exact Edb).
    split; [intros _; right; left; reflexivity|reflexivity]. }
  rewrite <- Edb.
  destruct (first_best_entry_exists scorer query (qa_database self))
    as [e [s Hfb]]; [rewrite Edb; discriminate|].
  rewrite (find_best_match_run scorer self query threshold e s Hn Hq Hfb).
  unfold result. simpl.
  destruct Hfb as [before [after [Eq [Es [Hb Ha]]]]].
  destruct (Z.leb_spec threshold s) as [Hge|Hlt].
  - split; [discriminate|].
    intros [H|[H|H]]; [contradiction|rewrite Edb in H; discriminate|].
    exfalso. specialize (H e).
    rewrite Es in H. assert (s < threshold)%Z; [|lia].
    apply H. rewrite Eq. apply in_or_app. right. left. reflexivity.
  - split; [|reflexivity]. intros _. right. right.
    intros e' Hin. rewrite Eq in Hin. apply in_app_or in Hin.
    destruct Hin as [Hin|[<-|Hin]].
    + specialize (Hb e' Hin). lia.
    + lia.
    + specialize (Ha e' Hin). lia.
Qed.

(** An answer handed back by the matcher is a stored one: it is the answer
    of an entry whose score reaches the threshold and is the highest of the
    table. *)
Theorem matcher_answer_is_stored (scorer : string -> string -> Z)
  (self : AnswerAgent) (query : string) (threshold : Z) (a : string) :
  nonneg_scorer scorer ->
  result (find_best_match_in_database scorer self query threshold)
    = Ret (Some a) ->
  exists e,
    In e (qa_database self) /\ answer e = a /\ query <> "" /\
    (threshold <= scorer query (question e))%Z /\
    (forall e', In e' (qa_database self) ->
                (scorer query (question e') <= scorer query (question e))%Z).
Proof.
  intros Hn H.
  destruct (string_dec query "") as [Hq|Hq].
  { rewrite find_best_match_guard in H by (left; exact Hq). discriminate H. }
  destruct (qa_database self) as [|e0 db0] eqn:Edb.
  { rewrite find_best_match_guard in H by (right; exact Edb).
    discriminate H. }
  rewrite <- Edb in *.
  destruct (first_best_entry_exists scorer query (qa_database self))
    as [e [s Hfb]]; [rewrite Edb; discriminate|].
  rewrite (find_best_match_run scorer self query threshold e s Hn Hq Hfb)
    in H.
  unfold result in H. simpl in H.
  destruct (Z.leb_spec threshold s) as [Hge|Hlt]; [|discriminate H].
  injection H as H.
  destruct Hfb as [before [after [Eq [Es [Hb Ha]]]]].
  exists e. split; [rewrite Eq; apply in_or_app; right; left; reflexivity|].
  split; [exact H|]. split; [exact Hq|]. rewrite Es. split; [exact Hge|].
  intros e' Hin. rewrite Eq in Hin. apply in_app_or in Hin.
  destruct Hin as [Hin|[<-|Hin]].
  - specialize (Hb e' Hin). lia.
  - lia.
  - exact (Ha e' Hin).
Qed.

Lemma matcher_answer_is_stored_witness :
  exists e,
    In e [reset_entry; voice_entry] /\ answer e = "A voice assistant is...".
Proof.
  destruct (matcher_answer_is_stored exact_scorer
              (agent_of [reset_entry; voice_entry] None)
              "What is a voice assistant?" 80%Z "A voice assistant is..."
              exact_scorer_nonneg eq_refl) as [e [Hin [Ha _]]].
  exists e. split; [exact Hin|exact Ha].
Defined.

(** Lowering the threshold never loses an answer: what is returned at a
    threshold is returned, unchanged, at every lower one. *)
Theorem matcher_threshold_monotone (scorer : string -> string -> Z)
  (self : AnswerAgent) (query : string) (lower higher : Z) (a : string) :
  nonneg_scorer scorer ->
  (lower <= higher)%Z ->
  result (find_best_match_in_database scorer self query higher)
    = Ret (Some a) ->
  result (find_best_match_in_database scorer self query lower)
    = Ret (Some a).
Proof.
  intros Hn Hle H.
  destruct (string_dec query "") as [Hq|Hq].
  { rewrite find_best_match_guard in H by (left; exact Hq). discriminate H. }
  destruct (qa_database self) as [|e0 db0] eqn:Edb.
  { rewrite find_best_match_guard in H by (right; exact Edb).
    discriminate H. }
  destruct (first_best_entry_exists scorer query (qa_database self))
    as [e [s Hfb]]; [rewrite Edb; discriminate|].
  rewrite (find_best_match_run scorer self query higher e s Hn Hq Hfb) in H.
  rewrite (find_best_match_run scorer self query lower e s Hn Hq Hfb).
  unfold result in *. simpl in *.
  destruct (Z.leb_spec higher s) as [Hge|Hlt]; [|discriminate H].
  destruct (Z.leb_spec lower s) as [_|Hlt]; [exact H|lia].
Qed.

Lemma matcher_threshold_monotone_witness :
  result (find_best_match_in_database
            (table_scorer [("How do I reset?", 85%Z)])
            (agent_of [reset_entry] None) "reset" 50%Z)
  = Ret (Some "Hold the button.").
Proof.
  apply (matcher_threshold_monotone
           (table_scorer [("How do I reset?", 85%Z)])
           (agent_of [reset_entry] None) "reset" 50%Z 80%Z).
  - apply table_scorer_nonneg. repeat constructor. simpl. lia.
  - lia.
  - reflexivity.
Defined.

(** Entries added at the end of the table that score no higher than the
    current best do not change what the matcher returns. *)
Theorem matcher_stable_under_append (scorer : string -> string -> Z)
  (self self' : AnswerAgent) (query : string) (threshold : Z)
  (e : QAEntry) (s : Z) (more : QADatabase) :
  nonneg_scorer scorer ->
  query <> "" ->
  first_best_entry scorer query (qa_database self) e s ->
  qa_database self' = (qa_database self ++ more)%list ->
  (forall e', In e' more -> (scorer query (question e') <= s)%Z) ->
  result (find_best_match_in_database scorer self' query threshold) =
  result (find_best_match_in_database scorer self query threshold).
Proof.
  intros Hn Hq Hfb Hdb Hmore.
  assert (Hfb' : first_best_entry scorer query (qa_database self') e s).
  { destruct Hfb as [before [after [Eq [Es [Hb Ha]]]]].
    exists before, (after ++ more)%list. repeat split.
    - rewrite Hdb, Eq. rewrite <- app_assoc. reflexivity.
    - exact Es.
    - exact Hb.
    - intros e' Hin. apply in_app_or in Hin.
      destruct Hin as [Hin|Hin]; [exact (Ha e' Hin)|exact (Hmore e' Hin)]. }
  rewrite (find_best_match_run scorer self query threshold e s Hn Hq Hfb).
  rewrite (find_best_match_run scorer self' query threshold e s Hn Hq Hfb').
  reflexivity.
Qed.

Lemma matcher_stable_under_append_witness :
  result (find_best_match_in_database exact_scorer
            (agent_of [voice_entry; reset_entry] None)
            "What is a voice assistant?" 80%Z) =
  result (find_best_match_in_database exact_scorer
            (agent_of [voice_entry] None)
            "What is a voice assistant?" 80%Z).
Proof.
  apply (matcher_stable_under_append exact_scorer
           (agent_of [voice_entry] None)
           (agent_of [voice_entry; reset_entry] None)
           "What is a voice assistant?" 80%Z voice_entry 100%Z
           [reset_entry] exact_scorer_nonneg).
  - discriminate.
  - exists [], []. repeat split; intros e' [].
  - reflexivity.
  - intros e' [<-|[]]. vm_compute. discriminate.
Defined.

Lemma matcher_none_iff_witness :
  result (find_best_match_in_database
            (table_scorer [("How do I reset?", 40%Z)])
            (agent_of [reset_entry] None) "weather" 80%Z) = Ret None.
Proof.
  apply (matcher_none_iff (table_scorer [("How do I reset?", 40%Z)])
           (agent_of [reset_entry] None) "weather" 80%Z).
  - apply table_scorer_nonneg. repeat constructor. simpl. lia.
  - right. right. intros e [<-|[]]. vm_compute. reflexivity.
Defined.

(** ** Further properties of the web search and the orchestrator *)

(** [search_web] contacts the provider exactly once, with the query as
    given, when a non-empty key is configured, whatever the provider then
    does (there is no second attempt after a failure); it does not contact
    it when the key is missing or is the empty string. *)
Theorem search_web_one_request
  (tavily_search : string -> outcome SearchResponse)
  (self : AnswerAgent) (query : string) :
  trace (search_web tavily_search self query) =
    (if truthy_opt (tavily_api_key self) then [EvSearch query] else []) /\
  (tavily_api_key self = None \/ tavily_api_key self = Some "" ->
   search_web tavily_search self query = ([], Ret key_missing_message)).
Proof.
  split.
  - destruct (truthy_opt (tavily_api_key self)) eqn:Hk.
    + rewrite (search_web_run tavily_search self query Hk). reflexivity.
    + rewrite (search_web_key_missing tavily_search self query Hk).
      reflexivity.
  - intros [H|H]; apply search_web_key_missing; rewrite H; reflexivity.
Qed.

(** A response without a results list yields the not-found message; a
    response with a results list always yields a text that starts with the
    heading, and the bare heading when the list is empty. *)
Theorem search_web_empty_and_missing_results
  (tavily_search : string -> outcome SearchResponse)
  (self : AnswerAgent) (query : string) (resp : SearchResponse) :
  truthy_opt (tavily_api_key self) = true ->
  tavily_search query = Ret resp ->
  (results resp = None ->
   result (search_web tavily_search self query) = Ret nothing_found_message)
  /\
  (forall rs, results resp = Some rs ->
     exists body,
       result (search_web tavily_search self query)
         = Ret (web_header ++ body) /\
       (rs = [] -> body = "")).
Proof.
  intros Hk Hresp.
  rewrite (search_web_run tavily_search self query Hk). rewrite Hresp.
  unfold result. simpl snd. split.
  - intros ->. reflexivity.
  - intros rs ->. exists (numbered 1 (firstn 3 rs)). split.
    + rewrite format_hits_numbered. reflexivity.
    + intros ->. reflexivity.
Qed.

Lemma search_web_empty_and_missing_results_witness :
  result (search_web (const_provider {| results := Some [] |})
            (agent_of [] (Some "tvly-key")) "anything")
  = Ret (web_header ++ "").
Proof.
  destruct (proj2 (search_web_empty_and_missing_results
              (const_provider {| results := Some [] |})
              (agent_of [] (Some "tvly-key")) "anything"
              {| results := Some [] |} eq_refl eq_refl) [] eq_refl)
    as [body [E Hb]].
  rewrite E. rewrite (Hb eq_refl). reflexivity.
Defined.

(** The excerpt of a result has the length of its content capped at 300: a
    content of at most 300 characters is reproduced in full, a longer one is
    cut to exactly 300 characters. *)
Theorem excerpt_length (r : SearchHit) :
  String.length (excerpt r) =
    Nat.min 300 (String.length (get_default (content r) "No content")) /\
  ((String.length (get_default (content r) "No content") <= 300)%nat ->
   excerpt r = get_default (content r) "No content") /\
  ((300 < String.length (get_default (content r) "No content"))%nat ->
   String.length (excerpt r) = 300%nat /\
   excerpt r <> get_default (content r) "No content").
Proof.
  unfold excerpt. split; [apply length_slice_to_min|]. split.
  - apply slice_to_short.
  - intros H. split.
    + rewrite length_slice_to_min. lia.
    + intros E. apply (f_equal String.length) in E.
      rewrite length_slice_to_min in E. lia.
Qed.

(** When no stored question reaches the threshold of 80, the orchestrator
    answers from the web path. *)
Theorem below_threshold_goes_to_web (scorer : string -> string -> Z)
  (tavily_search : string -> outcome SearchResponse)
  (self : AnswerAgent) (query : string) :
  nonneg_scorer scorer ->
  (forall e, In e (qa_database self) ->
             (scorer query (question e) < 80)%Z) ->
  exists w,
    result (search_web tavily_search self query) = Ret w /\
    result (get_answer scorer tavily_search self query) =
      Ret {| source := "web"; answer_text := w |}.
Proof.
  intros Hn Hlow.
  destruct (search_web_returns tavily_search self query) as [t' [w Hw]].
  exists w. rewrite Hw. split; [reflexivity|].
  assert (Efb : exists t,
            find_best_match_in_database scorer self query default_threshold
            = (t, Ret None)).
  { destruct (string_dec query "") as [Hq|Hq].
    { rewrite find_best_match_guard by (left; exact Hq).
      eexists. reflexivity. }
    destruct (qa_database self) as [|e0 db0] eqn:Edb.
    { rewrite find_best_match_guard by (right; exact Edb).
      eexists. reflexivity. }
    rewrite <- Edb in Hlow.
    destruct (first_best_entry_exists scorer query (qa_database self))
      as [e [s Hfb]]; [rewrite Edb; discriminate|].
    rewrite (find_best_match_run scorer self query default_threshold e s
               Hn Hq Hfb).
    destruct Hfb as [before [after [Eq [Es _]]]].
    assert (Hs : (s < 80)%Z).
    { rewrite <- Es. apply Hlow. rewrite Eq. apply in_or_app.
      right. left. reflexivity. }
    unfold default_threshold.
    destruct (Z.leb_spec 80 s); [lia|]. eexists. reflexivity. }
  destruct Efb as [t Efb].
  rewrite (get_answer_web tavily_search scorer self query t t' None w
             Efb eq_refl Hw).
  reflexivity.
Qed.

Lemma below_threshold_goes_to_web_witness :
  result (get_answer (table_scorer [("How do I reset?", 40%Z)])
            (const_provider {| results := None |})
            (agent_of [reset_entry] None) "What's the weather today?") =
  Ret {| source := "web"; answer_text := key_missing_message |}.
Proof.
  destruct (below_threshold_goes_to_web
              (table_scorer [("How do I reset?", 40%Z)])
              (const_provider {| results := None |})
              (agent_of [reset_entry] None) "What's the weather today?")
    as [w [Hw Hg]].
  - apply table_scorer_nonneg. repeat constructor. simpl. lia.
  - intros e [<-|[]]. vm_compute. reflexivity.
  - rewrite Hg. injection Hw as <-. reflexivity.
Defined.

(** One call of [get_answer] computes the scores first and then sends at
    most one search request, for the query as given; it sends one exactly
    when the matcher handed back nothing usable and a non-empty key is
    configured. *)
Theorem get_answer_trace (scorer : string -> string -> Z)
  (tavily_search : string -> outcome SearchResponse)
  (self : AnswerAgent) (query : string) :
  nonneg_scorer scorer ->
  exists da,
    result (find_best_match_in_database scorer self query default_threshold)
      = Ret da /\
    trace (get_answer scorer tavily_search self query) =
      (trace (find_best_match_in_database scorer self query default_threshold)
       ++ (if negb (truthy_opt da) && truthy_opt (tavily_api_key self)
           then [EvSearch query] else []))%list /\
    no_search
      (trace (find_best_match_in_database scorer self query default_threshold)).
Proof.
  intros Hn.
  destruct (find_best_match_returns scorer self query default_threshold Hn)
    as [da Hda].
  exists da. split; [exact Hda|]. split;
    [|apply find_best_match_no_search].
  destruct (find_best_match_in_database scorer self query default_threshold)
    as [t o] eqn:Efb.
  unfold result in Hda. simpl in Hda. subst o.
  destruct (truthy_opt da) eqn:Htr.
  - destruct da as [a|]; [|discriminate Htr]. simpl in Htr.
    assert (Ha : a <> "") by (apply truthy_true_iff; exact Htr).
    rewrite (get_answer_database tavily_search scorer self query t a Efb Ha).
    unfold trace. simpl. symmetry. apply app_nil_r.
  - destruct (truthy_opt (tavily_api_key self)) eqn:Hk.
    + pose proof (search_web_run tavily_search self query Hk) as Hw.
      rewrite (get_answer_web tavily_search scorer self query t _ da _
                 Efb Htr Hw).
      reflexivity.
    + pose proof (search_web_key_missing tavily_search self query Hk) as Hw.
      rewrite (get_answer_web tavily_search scorer self query t _ da _
                 Efb Htr Hw).
      reflexivity.
Qed.

Lemma get_answer_trace_witness :
  trace (get_answer exact_scorer (const_provider {| results := None |})
           (agent_of [voice_entry] (Some "tvly-key")) "weather") =
  [EvScore "weather" "What is a voice assistant?"; EvSearch "weather"].
Proof.
  destruct (get_answer_trace exact_scorer
              (const_provider {| results := None |})
              (agent_of [voice_entry] (Some "tvly-key")) "weather"
              exact_scorer_nonneg) as [da [Hda [Ht _]]].
  rewrite Ht. injection Hda as <-. reflexivity.
Defined.

(** ** Further properties of the transcription functions *)

Lemma wi_iterate_returned (poll : nat -> outcome TranscriptionResult)
  (fuel : nat) (v : option string) :
  WebInterface.iterate poll fuel (Returned v) = Returned v.
Proof. destruct fuel; reflexivity. Qed.

Lemma wi_loop_body_in_progress (poll : nat -> outcome TranscriptionResult)
  (n dots slept : nat) (r : TranscriptionResult) :
  poll n = Ret r -> terminal r = false ->
  WebInterface.loop_body poll n dots slept = Polling (S n) dots (slept + 3).
Proof.
  intros Hp Ht. unfold WebInterface.loop_body. rewrite Hp.
  destruct (terminal_false_inv r Ht) as [-> ->]. reflexivity.
Qed.

Lemma wi_iterate_exit_at (poll : nat -> outcome TranscriptionResult)
  (v : option string) (n : nat) :
  forall i dots slept fuel,
    (forall d s, WebInterface.loop_body poll (i + n) d s = Returned v) ->
    in_progress_until poll i (i + n) ->
    (n < fuel)%nat ->
    WebInterface.iterate poll fuel (Polling i dots slept) = Returned v.
Proof.
  induction n as [|n IH]; intros i dots slept fuel Hb Hprog Hf;
    (destruct fuel as [|fuel]; [lia|]); simpl.
  - rewrite Nat.add_0_r in Hb. rewrite Hb. apply wi_iterate_returned.
  - destruct (Hprog i) as [r0 [Hp0 Ht0]]; [lia|].
    rewrite (wi_loop_body_in_progress poll i dots slept r0 Hp0 Ht0).
    apply IH.
    + intros d s. replace (S i + n)%nat with (i + S n)%nat by lia. apply Hb.
    + intros j Hj. apply Hprog. lia.
    + lia.
Qed.

(** A poll that raises ends the transcription with [None]: the three
    functions do not poll again after a failed request, even if a later poll
    would have found the job completed. *)
Theorem raising_poll_aborts
  (poll : nat -> outcome TranscriptionResult) (show_progress : bool)
  (output_file : option string)
  (write_file : string -> string -> outcome unit)
  (upload_url : option string) (k : nat) (e : exn) (fuel : nat) :
  truthy_opt upload_url = true ->
  in_progress_until poll 0 k ->
  poll k = Raise e ->
  (k < fuel)%nat ->
  AudioProcessing.transcribe_audio poll show_progress upload_url
    (Ret 200%Z) fuel = Returned None /\
  SpeechRecognition.transcribe_audio poll output_file write_file upload_url
    (Ret 200%Z) fuel = Returned None /\
  WebInterface.transcribe_audio poll upload_url (Ret 200%Z) fuel
    = Returned None.
Proof.
  intros Hup Hprog Hp Hk.
  rewrite (ap_transcribe_started poll show_progress upload_url fuel Hup).
  unfold SpeechRecognition.transcribe_audio, WebInterface.transcribe_audio.
  rewrite Hup. simpl. split; [|split].
  - destruct (ap_iterate_exit_at_or_none poll show_progress None k 0 0 0
                fuel) as [E|E]; [|exact Hprog|exact Hk|exact E|exact E].
    intros d s. unfold AudioProcessing.loop_body. simpl. rewrite Hp.
    reflexivity.
  - apply (sr_iterate_exit_at poll output_file write_file None k 0 0 0 fuel);
      [|exact Hprog|exact Hk].
    intros d s. unfold SpeechRecognition.loop_body. simpl. rewrite Hp.
    reflexivity.
  - apply (wi_iterate_exit_at poll None k 0 0 0 fuel);
      [|exact Hprog|exact Hk].
    intros d s. unfold WebInterface.loop_body. simpl. rewrite Hp.
    reflexivity.
Qed.

Lemma raising_poll_aborts_witness :
  WebInterface.transcribe_audio
    (fun n => match n with
              | 0 => Ret in_progress
              | 1 => Raise (Exn "ConnectionError" "reset by peer")
              | _ => Ret (completed_with "hello world")
              end)
    (Some "https://cdn.assemblyai.com/upload/1") (Ret 200%Z) 10
  = Returned None.
Proof.
  refine (proj2 (proj2 (raising_poll_aborts
            (fun n => match n with
                      | 0 => Ret in_progress
                      | 1 => Raise (Exn "ConnectionError" "reset by peer")
                      | _ => Ret (completed_with "hello world")
                      end)
            true None (fun _ _ => Ret tt)
            (Some "https://cdn.assemblyai.com/upload/1") 1
            (Exn "ConnectionError" "reset by peer") 10 eq_refl _ eq_refl _))).
  - intros j Hj. assert (j = 0)%nat as -> by lia.
    exists in_progress. split; reflexivity.
  - lia.
Defined.

(** When the job completes but saving the text to the output file raises,
    the command-line function returns [None]: the transcript is lost.  No
    write is attempted when the output path is absent or empty, and the text
    is then returned. *)
Theorem save_failure_loses_transcript
  (poll : nat -> outcome TranscriptionResult)
  (output_file : option string)
  (write_file : string -> string -> outcome unit)
  (upload_url : option string) (k : nat) (r : TranscriptionResult)
  (fuel : nat) :
  truthy_opt upload_url = true ->
  first_terminal poll k r ->
  status r = "completed" ->
  (k < fuel)%nat ->
  (forall path e,
     output_file = Some path -> path <> "" ->
     write_file path (text r) = Raise e ->
     SpeechRecognition.transcribe_audio poll output_file write_file
       upload_url (Ret 200%Z) fuel = Returned None) /\
  (truthy_opt output_file = false ->
   SpeechRecognition.transcribe_audio poll output_file write_file
     upload_url (Ret 200%Z) fuel = Returned (Some (text r))).
Proof.
  intros Hup [Hp [_ Hprog]] Hs Hk.
  unfold SpeechRecognition.transcribe_audio. rewrite Hup. simpl. split.
  - intros path e Ho Hpath Hw.
    apply (sr_iterate_exit_at poll output_file write_file None k 0 0 0 fuel);
      [|exact Hprog|exact Hk].
    intros d s. unfold SpeechRecognition.loop_body. simpl.
    rewrite Hp, Hs, Ho. simpl.
    apply truthy_true_iff in Hpath. rewrite Hpath. rewrite Hw. reflexivity.
  - intros Ho.
    apply (sr_iterate_exit_at poll output_file write_file (Some (text r))
             k 0 0 0 fuel); [|exact Hprog|exact Hk].
    intros d s. unfold SpeechRecognition.loop_body. simpl.
    rewrite Hp, Hs. simpl.
    destruct output_file as [path|]; [|reflexivity].
    simpl in Ho. rewrite Ho. reflexivity.
Qed.

Lemma save_failure_loses_transcript_witness :
  SpeechRecognition.transcribe_audio sample_polls (Some "/readonly/out.txt")
    (fun _ _ => Raise (Exn "PermissionError" "Permission denied"))
    (Some "https://cdn.assemblyai.com/upload/1") (Ret 200%Z) 5
  = Returned None.
Proof.
  refine (proj1 (save_failure_loses_transcript sample_polls
            (Some "/readonly/out.txt")
            (fun _ _ => Raise (Exn "PermissionError" "Permission denied"))
            (Some "https://cdn.assemblyai.com/upload/1") 2
            (completed_with "hello world") 5 eq_refl _ eq_refl _)
            "/readonly/out.txt" (Exn "PermissionError" "Permission denied")
            eq_refl _ eq_refl).
  - split; [reflexivity|]. split; [reflexivity|].
    intros j Hj. exists in_progress. split; [|reflexivity].
    unfold sample_polls. destruct (Nat.ltb_spec j 2); [reflexivity|lia].
  - lia.
  - discriminate.
Defined.

Lemma wi_loop_body_terminal (poll : nat -> outcome TranscriptionResult)
  (n dots slept : nat) (r : TranscriptionResult) :
  poll n = Ret r -> terminal r = true ->
  WebInterface.loop_body poll n dots slept = Returned (loop_value r).
Proof.
  intros Hp Ht. unfold WebInterface.loop_body, loop_value. rewrite Hp.
  unfold terminal in Ht.
  destruct (status r =? "completed"); [reflexivity|].
  simpl in Ht. rewrite Ht. reflexivity.
Qed.

Lemma wi_iterate_in_progress (poll : nat -> outcome TranscriptionResult)
  (n : nat) :
  forall i dots slept,
    in_progress_until poll i (i + n) ->
    WebInterface.iterate poll n (Polling i dots slept)
      = Polling (i + n) dots (slept + 3 * n).
Proof.
  induction n as [|n IH]; intros i dots slept H; simpl.
  - f_equal; lia.
  - destruct (H i) as [r [Hp Ht]]; [lia|].
    rewrite (wi_loop_body_in_progress poll i dots slept r Hp Ht).
    rewrite IH.
    + f_equal; lia.
    + intros j Hj. apply H. lia.
Qed.

Lemma ap_wi_iterate_progress (poll : nat -> outcome TranscriptionResult)
  (show_progress : bool) (fuel : nat) :
  forall n d s d' s',
    show_progress = false \/ percents_accepted_until poll (n + fuel) ->
    progress_of (AudioProcessing.iterate poll show_progress fuel
                   (Polling n d s)) =
    progress_of (WebInterface.iterate poll fuel (Polling n d' s')).
Proof.
  induction fuel as [|fuel IH]; intros n d s d' s' Hacc; simpl.
  - reflexivity.
  - destruct (poll n) as [r|e] eqn:Hp.
    + destruct (terminal r) eqn:Ht.
      * rewrite (ap_loop_body_terminal poll show_progress n d s r Hp Ht).
        rewrite (wi_loop_body_terminal poll n d' s' r Hp Ht).
        rewrite ap_iterate_returned, wi_iterate_returned. reflexivity.
      * rewrite (ap_loop_body_in_progress poll show_progress n d s r Hp Ht).
        -- rewrite (wi_loop_body_in_progress poll n d' s' r Hp Ht).
           apply IH.
           destruct Hacc as [Hacc|Hacc]; [left; exact Hacc|right].
           intros j r' Hj. apply Hacc. lia.
        -- destruct Hacc as [Hacc|Hacc]; [left; exact Hacc|right].
           apply (Hacc n r); [lia|exact Hp].
    + unfold AudioProcessing.loop_body, WebInterface.loop_body.
      rewrite Hp.
      rewrite ap_iterate_returned, wi_iterate_returned. reflexivity.
Qed.

Lemma sr_wi_iterate_progress (poll : nat -> outcome TranscriptionResult)
  (output_file : option string)
  (write_file : string -> string -> outcome unit) (fuel : nat) :
  truthy_opt output_file = false \/ writes_succeed write_file ->
  forall n d s d' s',
    progress_of (SpeechRecognition.iterate poll output_file write_file fuel
                   (Polling n d s)) =
    progress_of (WebInterface.iterate poll fuel (Polling n d' s')).
Proof.
  intros Hw.
  induction fuel as [|fuel IH]; intros n d s d' s'; simpl.
  - reflexivity.
  - unfold SpeechRecognition.loop_body, WebInterface.loop_body.
    destruct (poll n) as [r|e].
    + destruct (status r =? "completed").
      * rewrite wi_iterate_returned.
        destruct output_file as [path|];
          [|rewrite sr_iterate_returned; reflexivity].
        destruct (truthy path) eqn:Hpath;
          [|rewrite sr_iterate_returned; reflexivity].
        destruct Hw as [Hw|Hw].
        -- simpl in Hw. rewrite Hw in Hpath. discriminate Hpath.
        -- rewrite Hw. rewrite sr_iterate_returned. reflexivity.
      * destruct (status r =? "error").
        -- rewrite sr_iterate_returned, wi_iterate_returned. reflexivity.
        -- apply IH.
    + rewrite sr_iterate_returned, wi_iterate_returned. reflexivity.
Qed.

(** The three [transcribe_audio] functions agree: on the same upload, start
    response and polls they have, after any number of iterations, sent the
    same number of polls or returned the same value.  For the page variant
    this holds when the display is off or accepts the percent of every
    response polled; for the command-line variant, when no output file is
    requested or the file can be written. *)
Theorem transcribe_variants_agree
  (poll : nat -> outcome TranscriptionResult) (show_progress : bool)
  (output_file : option string)
  (write_file : string -> string -> outcome unit)
  (upload_url : option string) (response : outcome Z) (fuel : nat) :
  show_progress = false \/ percents_accepted_until poll fuel ->
  truthy_opt output_file = false \/ writes_succeed write_file ->
  progress_of (AudioProcessing.transcribe_audio poll show_progress
                 upload_url response fuel) =
  progress_of (WebInterface.transcribe_audio poll upload_url response fuel)
  /\
  progress_of (SpeechRecognition.transcribe_audio poll output_file write_file
                 upload_url response fuel) =
  progress_of (WebInterface.transcribe_audio poll upload_url response fuel).
Proof.
  intros Hacc Hw. split.
  - unfold AudioProcessing.transcribe_audio, WebInterface.transcribe_audio.
    destruct (negb (truthy_opt upload_url)); [reflexivity|].
    destruct response as [code|e]; [|reflexivity].
    destruct (code =? 200)%Z; [|reflexivity].
    destruct show_progress; cbn [st_progress Z.leb Z.compare andb];
      apply ap_wi_iterate_progress; exact Hacc.
  - unfold SpeechRecognition.transcribe_audio, WebInterface.transcribe_audio.
    destruct (negb (truthy_opt upload_url)); [reflexivity|].
    destruct response as [code|e]; [|reflexivity].
    destruct (code =? 200)%Z; [|reflexivity].
    apply sr_wi_iterate_progress. exact Hw.
Qed.

Lemma transcribe_variants_agree_witness :
  progress_of (AudioProcessing.transcribe_audio sample_polls true
                 (Some "https://cdn.assemblyai.com/upload/1") (Ret 200%Z) 3)
  = progress_of (WebInterface.transcribe_audio sample_polls
                   (Some "https://cdn.assemblyai.com/upload/1") (Ret 200%Z) 3).
Proof.
  apply (transcribe_variants_agree sample_polls true None
           (fun _ _ => Ret tt) (Some "https://cdn.assemblyai.com/upload/1")
           (Ret 200%Z) 3).
  - right. intros j r Hj Hr. unfold sample_polls in Hr.
    destruct (j <? 2)%nat; injection Hr as <-; reflexivity.
  - left. reflexivity.
Defined.

(** With the display on, an in-progress response whose percent the progress
    bar rejects ends the page function with [None], where the same function
    with the display off and the function of [web_interface.py] go on
    polling. *)
Theorem rejected_percent_ends_page_variant
  (poll : nat -> outcome TranscriptionResult)
  (upload_url : option string) (k : nat) (r : TranscriptionResult)
  (fuel : nat) :
  truthy_opt upload_url = true ->
  in_progress_until poll 0 (S k) ->
  percents_accepted_until poll k ->
  poll k = Ret r ->
  percent_accepted r = false ->
  (k < fuel)%nat ->
  AudioProcessing.transcribe_audio poll true upload_url (Ret 200%Z) fuel
    = Returned None /\
  AudioProcessing.transcribe_audio poll false upload_url (Ret 200%Z) (S k)
    = Polling (S k) 0 (2 * S k) /\
  WebInterface.transcribe_audio poll upload_url (Ret 200%Z) (S k)
    = Polling (S k) 0 (3 * S k).
Proof.
  intros Hup Hprog Hacc Hp Hrej Hk.
  assert (Ht : terminal r = false).
  { destruct (Hprog k) as [r' [Hp' Ht']]; [lia|].
    rewrite Hp in Hp'. injection Hp' as <-. exact Ht'. }
  split; [|split].
  - rewrite (ap_transcribe_started poll true upload_url fuel Hup).
    apply (ap_iterate_exit_at poll true None k 0 0 0 fuel).
    + intros d s. apply ap_loop_body_rejected with (r := r);
        try assumption; reflexivity.
    + intros j Hj. apply Hprog. lia.
    + right. exact Hacc.
    + exact Hk.
  - rewrite (ap_transcribe_started poll false upload_url (S k) Hup).
    assert (G : forall m i d sl,
              in_progress_until poll i (i + m) ->
              AudioProcessing.iterate poll false m (Polling i d sl)
              = Polling (i + m) d (sl + 2 * m)).
    { induction m as [|m IH]; intros i d sl H; simpl.
      - f_equal; lia.
      - destruct (H i) as [r0 [Hp0 Ht0]]; [lia|].
        rewrite (ap_loop_body_in_progress poll false i d sl r0 Hp0 Ht0
                   (or_introl eq_refl)).
        rewrite IH.
        + f_equal; lia.
        + intros j Hj. apply H. lia. }
    exact (G (S k) 0 0 0 Hprog).
  - unfold WebInterface.transcribe_audio. rewrite Hup. simpl.
    exact (wi_iterate_in_progress poll (S k) 0 0 0 Hprog).
Qed.

Lemma rejected_percent_ends_page_variant_witness :
  AudioProcessing.transcribe_audio overshoot_polls true
    (Some "https://cdn.assemblyai.com/upload/1") (Ret 200%Z) 4
    = Returned None /\
  WebInterface.transcribe_audio overshoot_polls
    (Some "https://cdn.assemblyai.com/upload/1") (Ret 200%Z) 1
    = Polling 1 0 3.
Proof.
  destruct (rejected_percent_ends_page_variant overshoot_polls
              (Some "https://cdn.assemblyai.com/upload/1") 0 overshoot 4
              eq_refl) as [H1 [_ H3]].
  - intros j Hj. exists overshoot. split; reflexivity.
  - intros j r Hj. lia.
  - reflexivity.
  - reflexivity.
  - lia.
  - split; [exact H1|exact H3].
Defined.

Lemma dots_after_succ (n : nat) :
  dots_after (S n) = (dots_after n mod 3 + 1)%nat.
Proof.
  destruct n as [|m]; [reflexivity|].
  unfold dots_after.
  replace (S m) with (m + 1)%nat by lia.
  rewrite (Nat.Div0.add_mod m 1 3).
  reflexivity.
Qed.

Lemma ap_iterate_dots (poll : nat -> outcome TranscriptionResult) (n : nat) :
  forall i slept,
    in_progress_until poll i (i + n) ->
    percents_accepted_until poll (i + n) ->
    AudioProcessing.iterate poll true n (Polling i (dots_after i) slept)
      = Polling (i + n) (dots_after (i + n)) (slept + 2 * n).
Proof.
  induction n as [|n IH]; intros i slept H Hacc; simpl.
  - rewrite Nat.add_0_r. f_equal. lia.
  - destruct (H i) as [r [Hp Ht]]; [lia|].
    rewrite (ap_loop_body_in_progress poll true i (dots_after i) slept r
               Hp Ht).
    + rewrite <- dots_after_succ. rewrite IH.
      * replace (S i + n)%nat with (i + S n)%nat by lia. f_equal. lia.
      * intros j Hj. apply H. lia.
      * intros j r' Hj. apply Hacc. lia.
    + right. apply (Hacc i r); [lia|exact Hp].
Qed.

(** With the progress display on and every percent accepted, the animation
    counter cycles 1, 2, 3: after [n] responses in progress it is
    [(n - 1) mod 3 + 1], so from the first response on it stays between 1
    and 3 and the padding [3 - dots] is never negative.  With the display
    off the counter stays 0. *)
Theorem progress_dots_cycle
  (poll : nat -> outcome TranscriptionResult)
  (upload_url : option string) (n : nat) :
  truthy_opt upload_url = true ->
  in_progress_until poll 0 n ->
  (percents_accepted_until poll n ->
   AudioProcessing.transcribe_audio poll true upload_url (Ret 200%Z) n
     = Polling n (dots_after n) (2 * n)) /\
  ((0 < n)%nat -> (1 <= dots_after n <= 3)%nat) /\
  AudioProcessing.transcribe_audio poll false upload_url (Ret 200%Z) n
    = Polling n 0 (2 * n).
Proof.
  intros Hup Hprog.
  split; [|split].
  - intros Hacc. rewrite (ap_transcribe_started poll true upload_url n Hup).
    exact (ap_iterate_dots poll n 0 0 Hprog Hacc).
  - intros Hn. destruct n as [|m]; [lia|]. unfold dots_after.
    pose proof (Nat.mod_upper_bound m 3). lia.
  - rewrite (ap_transcribe_started poll false upload_url n Hup).
    assert (G : forall m i slept,
              in_progress_until poll i (i + m) ->
              AudioProcessing.iterate poll false m (Polling i 0 slept)
              = Polling (i + m) 0 (slept + 2 * m)).
    { induction m as [|m IH]; intros i slept H; simpl.
      - f_equal; lia.
      - destruct (H i) as [r [Hp Ht]]; [lia|].
        rewrite (ap_loop_body_in_progress poll false i 0 slept r Hp Ht
                   (or_introl eq_refl)).
        rewrite IH.
        + f_equal; lia.
        + intros j Hj. apply H. lia. }
    exact (G n 0 0 Hprog).
Qed.

Lemma progress_dots_cycle_witness :
  AudioProcessing.transcribe_audio endless_polls true
    (Some "https://cdn.assemblyai.com/upload/1") (Ret 200%Z) 5
  = Polling 5 2 10.
Proof.
  refine (proj1 (progress_dots_cycle endless_polls
            (Some "https://cdn.assemblyai.com/upload/1") 5 eq_refl _) _).
  - intros j Hj. exists in_progress. split; reflexivity.
  - intros j r Hj Hr. injection Hr as <-. reflexivity.
Defined.

(** A transcript can only come out of a successful upload and start: when
    any of the three functions returns a text, the audio file was opened,
    the upload answered 200 with a non-empty [upload_url], and the request
    that starts the job answered 200.  In every other case no polling
    happens. *)
Theorem transcript_requires_upload
  (poll : nat -> outcome TranscriptionResult) (show_progress : bool)
  (output_file : option string)
  (write_file : string -> string -> outcome unit)
  (opened : outcome unit) (post : outcome UploadResponse)
  (response : outcome Z) (fuel : nat) (t : string) :
  AudioProcessing.transcribe_audio poll show_progress
    (upload_file opened post) response fuel = Returned (Some t) \/
  SpeechRecognition.transcribe_audio poll output_file write_file
    (upload_file opened post) response fuel = Returned (Some t) \/
  WebInterface.transcribe_audio poll (upload_file opened post) response fuel
    = Returned (Some t) ->
  exists r url,
    opened = Ret tt /\ post = Ret r /\ upload_status r = 200%Z /\
    upload_url_field r = Ret url /\ url <> "" /\
    upload_file opened post = Some url /\ response = Ret 200%Z.
Proof.
  intros H.
  assert (Hstart :
    truthy_opt (upload_file opened post) = true /\ response = Ret 200%Z).
  { destruct H as [H|[H|H]].
    - destruct (ap_transcribe_cases poll show_progress
                  (upload_file opened post) response fuel)
        as [E|[Hup [Hresp _]]];
        [rewrite E in H; discriminate H|split; assumption].
    - destruct (sr_transcribe_cases poll output_file write_file
                  (upload_file opened post) response fuel)
        as [E|[Hup [Hresp _]]];
        [rewrite E in H; discriminate H|split; assumption].
    - unfold WebInterface.transcribe_audio in H.
      destruct (truthy_opt (upload_file opened post)); simpl in H;
        [|discriminate H].
      split; [reflexivity|].
      destruct response as [code|e]; [|discriminate H].
      destruct (Z.eqb_spec code 200) as [->|_];
        [reflexivity|discriminate H]. }
  destruct Hstart as [Hup Hresp].
  unfold upload_file in *.
  destruct opened as [[]|e]; [|discriminate Hup].
  destruct post as [r|e]; [|discriminate Hup].
  destruct (Z.eqb_spec (upload_status r) 200) as [Hs|_]; [|discriminate Hup].
  destruct (upload_url_field r) as [url|e] eqn:Hurl; [|discriminate Hup].
  exists r, url. simpl in Hup. apply truthy_true_iff in Hup.
  split; [reflexivity|]. split; [reflexivity|]. split; [exact Hs|].
  split; [exact Hurl|]. split; [exact Hup|].
  split; [reflexivity|exact Hresp].
Qed.

Lemma transcript_requires_upload_witness :
  exists r url,
    Ret {| upload_status := 200%Z;
           upload_url_field := Ret "https://cdn.assemblyai.com/upload/1" |}
      = Ret r /\
    upload_url_field r = Ret url /\ url <> "".
Proof.
  destruct (transcript_requires_upload sample_polls true None
              (fun _ _ => Ret tt) (Ret tt)
              (Ret {| upload_status := 200%Z;
                      upload_url_field :=
                        Ret "https://cdn.assemblyai.com/upload/1" |})
              (Ret 200%Z) 3 "hello world")
    as [r [url [_ [Hp [_ [Hu [Hne _]]]]]]].
  - left. reflexivity.
  - exists r, url. repeat split; assumption.
Defined.

(** ** Speech synthesis *)

Section TextToSpeechFacts.

Variable gTTS : string -> string -> bool -> outcome unit.
Variable named_temporary_file : outcome string.
Variable save : string -> string -> outcome unit.
Variable from_mp3 : string -> outcome unit.
Variable play : string -> outcome unit.

Let tts := TextToSpeech.text_to_speech gTTS named_temporary_file save.
Let say := TextToSpeech.speak gTTS named_temporary_file save from_mp3 play.

(** [text_to_speech] returns a path only after the audio was saved to it
    without error.  Given an output path it returns that path or [None] and
    creates no temporary file; given none it returns the name of the
    temporary file it created, or [None].  It never removes a file. *)
Theorem text_to_speech_returns_saved_path (self : TextToSpeech.engine)
  (txt : string) (output_file : option string) :
  (forall p, snd (tts self txt output_file) = Some p ->
     save txt p = Ret tt /\
     In (TextToSpeech.EvSave p) (fst (tts self txt output_file)) /\
     gTTS txt (TextToSpeech.language self) (TextToSpeech.slow self) = Ret tt)
  /\
  (forall path, output_file = Some path ->
     (snd (tts self txt output_file) = Some path \/
      snd (tts self txt output_file) = None) /\
     (forall q, ~ In (TextToSpeech.EvTemp q) (fst (tts self txt output_file))))
  /\
  (output_file = None ->
     snd (tts self txt output_file) = None \/
     exists tmp, named_temporary_file = Ret tmp /\
                 snd (tts self txt output_file) = Some tmp) /\
  (forall q, ~ In (TextToSpeech.EvRemove q) (fst (tts self txt output_file))).
Proof.
  unfold tts, TextToSpeech.text_to_speech.
  destruct (gTTS txt (TextToSpeech.language self) (TextToSpeech.slow self))
    as [[]|e0].
  2:{ simpl. split; [|split; [|split]].
      - discriminate.
      - intros path _. split; [right; reflexivity|intros q []].
      - intros _. left. reflexivity.
      - intros q []. }
  destruct output_file as [path|].
  - destruct (save txt path) as [[]|e] eqn:Hs; simpl.
    + split; [|split; [|split]].
      * intros p E. injection E as <-. repeat split; [exact Hs|].
        left. reflexivity.
      * intros p E. injection E as <-. split; [left; reflexivity|].
        intros q [H|[]]. discriminate H.
      * discriminate.
      * intros q [H|[]]. discriminate H.
    + split; [|split; [|split]].
      * discriminate.
      * intros p E. split; [right; reflexivity|].
        intros q [H|[]]. discriminate H.
      * discriminate.
      * intros q [H|[]]. discriminate H.
  - destruct named_temporary_file as [tmp|e]; simpl.
    + destruct (save txt tmp) as [[]|e] eqn:Hs; simpl.
      * split; [|split; [|split]].
        -- intros p E. injection E as <-. repeat split; [exact Hs|].
           right. left. reflexivity.
        -- discriminate.
        -- intros _. right. exists tmp. split; reflexivity.
        -- intros q [H|[H|[]]]; discriminate H.
      * split; [|split; [|split]].
        -- discriminate.
        -- discriminate.
        -- intros _. left. reflexivity.
        -- intros q [H|[H|[]]]; discriminate H.
    + split; [|split; [|split]].
      * discriminate.
      * discriminate.
      * intros _. left. reflexivity.
      * intros q [].
Qed.

Lemma tts_events_no_remove (self : TextToSpeech.engine) (txt : string)
  (output_file : option string) (q : string) :
  ~ In (TextToSpeech.EvRemove q) (fst (tts self txt output_file)).
Proof.
  unfold tts, TextToSpeech.text_to_speech.
  destruct (gTTS _ _ _) as [[]|e0]; [|intros []].
  destruct output_file as [path|].
  - destruct (save txt path); intros [H|[]]; discriminate H.
  - destruct named_temporary_file as [tmp|e]; [|intros []].
    destruct (save txt tmp); intros [H|[H|[]]]; discriminate H.
Qed.

Lemma tts_temporary_result (self : TextToSpeech.engine) (txt : string)
  (output_file : option string) :
  output_file = None ->
  snd (tts self txt output_file) = None \/
  exists tmp, named_temporary_file = Ret tmp /\
              snd (tts self txt output_file) = Some tmp.
Proof.
  intros ->. unfold tts, TextToSpeech.text_to_speech.
  destruct (gTTS _ _ _) as [[]|e0]; [|left; reflexivity].
  destruct named_temporary_file as [tmp|e]; [|left; reflexivity].
  destruct (save txt tmp); [|left; reflexivity].
  right. exists tmp. split; reflexivity.
Qed.

(** [speak] returns what [text_to_speech] returned, whether or not the audio
    could be loaded and played; only an empty path becomes [None]. *)
Theorem speak_returns_synthesized_path (self : TextToSpeech.engine)
  (txt : string) (output_file : option string) :
  snd (say self txt output_file) =
    (if truthy_opt (snd (tts self txt output_file))
     then snd (tts self txt output_file) else None) /\
  (forall p, snd (tts self txt output_file) = Some p -> p <> "" ->
             snd (say self txt output_file) = Some p).
Proof.
  assert (E : snd (say self txt output_file) =
              (if truthy_opt (snd (tts self txt output_file))
               then snd (tts self txt output_file) else None)).
  { unfold say, TextToSpeech.speak. fold tts.
    destruct (tts self txt output_file) as [evs audio_file]. simpl.
    destruct (truthy_opt audio_file); [|reflexivity].
    destruct (from_mp3 _); [|reflexivity].
    destruct (play _); [|reflexivity].
    destruct output_file; reflexivity. }
  split; [exact E|].
  intros p Hp Hne. rewrite E, Hp. simpl.
  apply truthy_true_iff in Hne. rewrite Hne. reflexivity.
Qed.

(** [speak] removes a file exactly when no output path was given, the audio
    was synthesized into a temporary file, and loading and playing it both
    succeeded.  The file removed is that temporary file, never one named by
    the caller, and its path is what [speak] returns. *)
Theorem speak_removes_only_its_temporary_file (self : TextToSpeech.engine)
  (txt : string) (output_file : option string) (p : string) :
  In (TextToSpeech.EvRemove p) (fst (say self txt output_file)) <->
  output_file = None /\
  named_temporary_file = Ret p /\
  snd (tts self txt output_file) = Some p /\ p <> "" /\
  from_mp3 p = Ret tt /\ play p = Ret tt /\
  snd (say self txt output_file) = Some p.
Proof.
  pose proof (tts_events_no_remove self txt output_file) as Hnr.
  pose proof (tts_temporary_result self txt output_file) as Htmp.
  unfold say, TextToSpeech.speak. fold tts.
  destruct (tts self txt output_file) as [evs audio_file]. simpl in *.
  assert (Hlast : forall l x y,
            In (TextToSpeech.EvRemove p) (evs ++ l)%list ->
            (forall z, In z l -> z = TextToSpeech.EvLoad x \/
                                 z = TextToSpeech.EvPlay y) -> False).
  { intros l x y Hin Hl. apply in_app_or in Hin.
    destruct Hin as [Hin|Hin]; [exact (Hnr p Hin)|].
    destruct (Hl _ Hin) as [H|H]; discriminate H. }
  destruct audio_file as [path|]; simpl.
  2:{ split; [intros H; exfalso; exact (Hnr p H)|].
      intros [_ [_ [H _]]]. discriminate H. }
  destruct (truthy path) eqn:Hpath.
  2:{ split; [intros H; exfalso; exact (Hnr p H)|].
      intros [_ [_ [H [Hne _]]]]. injection H as ->.
      apply truthy_true_iff in Hne. rewrite Hne in Hpath.
      discriminate Hpath. }
  destruct (from_mp3 path) as [[]|e1] eqn:Hload.
  2:{ split.
      - intros H. exfalso. apply (Hlast _ path path H).
        intros z [<-|[]]. left. reflexivity.
      - intros [_ [_ [H [_ [Hl _]]]]]. injection H as ->.
        rewrite Hl in Hload. discriminate Hload. }
  destruct (play path) as [[]|e2] eqn:Hplay.
  2:{ split.
      - intros H. exfalso. apply (Hlast _ path path H).
        intros z [<-|[<-|[]]]; [left|right]; reflexivity.
      - intros [_ [_ [H [_ [_ [Hp _]]]]]]. injection H as ->.
        rewrite Hp in Hplay. discriminate Hplay. }
  destruct output_file as [given|].
  - split.
    + intros H. exfalso. apply (Hlast _ path path H).
      intros z [<-|[<-|[]]]; [left|right]; reflexivity.
    + intros [H _]. discriminate H.
  - split.
    + intros H. apply in_app_or in H.
      destruct H as [H|H]; [exfalso; exact (Hnr p H)|].
      destruct H as [H|[H|[H|[]]]]; try discriminate H.
      injection H as <-.
      destruct (Htmp eq_refl) as [Hn|[tmp [Ht Hs]]]; [discriminate Hn|].
      injection Hs as <-.
      split; [reflexivity|]. split; [exact Ht|]. split; [reflexivity|].
      split; [apply truthy_true_iff; exact Hpath|].
      split; [exact Hload|]. split; [exact Hplay|reflexivity].
    + intros [_ [_ [H _]]]. injection H as ->.
      apply in_or_app. right. right. right. left. reflexivity.
Qed.

End TextToSpeechFacts.

Lemma speak_removes_only_its_temporary_file_witness :
  In (TextToSpeech.EvRemove "/tmp/tmpab12.mp3")
     (fst (TextToSpeech.speak (fun _ _ _ => Ret tt) (Ret "/tmp/tmpab12.mp3")
             (fun _ _ => Ret tt) (fun _ => Ret tt) (fun _ => Ret tt)
             {| TextToSpeech.language := "en"; TextToSpeech.slow := false |}
             "Hello" None)).
Proof.
  apply (speak_removes_only_its_temporary_file
           (fun _ _ _ => Ret tt) (Ret "/tmp/tmpab12.mp3")
           (fun _ _ => Ret tt) (fun _ => Ret tt) (fun _ => Ret tt)
           {| TextToSpeech.language := "en"; TextToSpeech.slow := false |}
           "Hello" None "/tmp/tmpab12.mp3").
  repeat split. discriminate.
Defined.

(** ** The page: from transcription to answer *)

(** When the transcription failed or is empty, the page reports a failure
    and seeks no answer: no score is computed and no search is sent.  This
    is the case when the job ends in error, and also when it completes with
    an empty text. *)
Theorem failed_or_empty_transcription_not_answered
  (scorer : string -> string -> Z)
  (tavily_search : string -> outcome SearchResponse)
  (answer_agent : AnswerAgent)
  (poll : nat -> outcome TranscriptionResult)
  (upload_url : option string) (response : outcome Z)
  (k : nat) (r : TranscriptionResult) (fuel : nat) :
  (forall transcription,
     truthy_opt transcription = false ->
     VoiceAssistant.process_audio_and_answer scorer tavily_search
       answer_agent transcription = ([], Ret (None, None))) /\
  (truthy_opt upload_url = true ->
   first_terminal poll k r ->
   (k < fuel)%nat ->
   status r = "error" \/ (status r = "completed" /\ text r = "") ->
   exists transcription,
     AudioProcessing.transcribe_audio poll true upload_url (Ret 200%Z) fuel
       = Returned transcription /\
     VoiceAssistant.process_audio_and_answer scorer tavily_search
       answer_agent transcription = ([], Ret (None, None))).
Proof.
  assert (G : forall transcription,
            truthy_opt transcription = false ->
            VoiceAssistant.process_audio_and_answer scorer tavily_search
              answer_agent transcription = ([], Ret (None, None))).
  { intros transcription H. unfold VoiceAssistant.process_audio_and_answer.
    rewrite H. reflexivity. }
  split; [exact G|].
  intros Hup [Hp [Ht Hprog]] Hk Hs.
  assert (Hfalsy : truthy_opt (loop_value r) = false).
  { unfold loop_value.
    destruct Hs as [Hs|[Hs Htxt]]; rewrite Hs; simpl.
    - reflexivity.
    - rewrite Htxt. reflexivity. }
  rewrite (ap_transcribe_started poll true upload_url fuel Hup).
  destruct (ap_iterate_exit_at_or_none poll true (loop_value r) k 0 0 0 fuel)
    as [E|E]; [|exact Hprog|exact Hk| |].
  - intros d s. apply ap_loop_body_terminal; assumption.
  - exists (loop_value r). split; [exact E|apply G; exact Hfalsy].
  - exists None. split; [exact E|apply G; reflexivity].
Qed.

Lemma failed_or_empty_transcription_not_answered_witness :
  exists transcription,
    AudioProcessing.transcribe_audio
      (fun _ => Ret (completed_with "")) true
      (Some "https://cdn.assemblyai.com/upload/1") (Ret 200%Z) 1
      = Returned transcription /\
    VoiceAssistant.process_audio_and_answer exact_scorer
      (const_provider {| results := None |})
      (agent_of [voice_entry] None) transcription = ([], Ret (None, None)).
Proof.
  refine (proj2 (failed_or_empty_transcription_not_answered exact_scorer
            (const_provider {| results := None |})
            (agent_of [voice_entry] None)
            (fun _ => Ret (completed_with ""))
            (Some "https://cdn.assemblyai.com/upload/1") (Ret 200%Z)
            0 (completed_with "") 1) eq_refl _ _ _).
  - split; [reflexivity|]. split; [reflexivity|]. intros j Hj. lia.
  - lia.
  - right. split; reflexivity.
Defined.

(** When the job completes with a non-empty text, the display having
    accepted every percent before, the page hands that text, unchanged, to
    [get_answer] and returns it with the answer found.  The
    label shown is "Local Knowledge Base" exactly when the answer is tagged
    "database", and "Web Search" otherwise. *)
Theorem completed_transcription_is_answered
  (scorer : string -> string -> Z)
  (tavily_search : string -> outcome SearchResponse)
  (answer_agent : AnswerAgent)
  (poll : nat -> outcome TranscriptionResult)
  (upload_url : option string)
  (k : nat) (r : TranscriptionResult) (fuel : nat) :
  nonneg_scorer scorer ->
  truthy_opt upload_url = true ->
  first_terminal poll k r ->
  percents_accepted_until poll k ->
  (k < fuel)%nat ->
  status r = "completed" ->
  text r <> "" ->
  exists resp,
    AudioProcessing.transcribe_audio poll true upload_url (Ret 200%Z) fuel
      = Returned (Some (text r)) /\
    result (get_answer scorer tavily_search answer_agent (text r))
      = Ret resp /\
    VoiceAssistant.process_audio_and_answer scorer tavily_search
      answer_agent (Some (text r)) =
    (trace (get_answer scorer tavily_search answer_agent (text r)),
     Ret (Some (text r), Some resp)) /\
    ((source resp = "database" /\
      VoiceAssistant.source_label resp = "Local Knowledge Base") \/
     (source resp = "web" /\
      VoiceAssistant.source_label resp = "Web Search")).
Proof.
  intros Hn Hup [Hp [Ht Hprog]] Hacc Hk Hs Htxt.
  assert (Hg : exists t resp,
            get_answer scorer tavily_search answer_agent (text r)
              = (t, Ret resp) /\
            (resp = {| source := "database";
                       answer_text := answer_text resp |} \/
             resp = {| source := "web"; answer_text := answer_text resp |})).
  { destruct (find_best_match_returns scorer answer_agent (text r)
                default_threshold Hn) as [da Hda].
    destruct (find_best_match_in_database scorer answer_agent (text r)
                default_threshold) as [t o] eqn:Efb.
    unfold result in Hda. simpl in Hda. subst o.
    destruct (search_web_returns tavily_search answer_agent (text r))
      as [t' [w Hw]].
    destruct (truthy_opt da) eqn:Htr.
    - destruct da as [a|]; [|discriminate Htr]. simpl in Htr.
      assert (Ha : a <> "") by (apply truthy_true_iff; exact Htr).
      rewrite (get_answer_database tavily_search scorer answer_agent
                 (text r) t a Efb Ha).
      eexists. eexists. split; [reflexivity|]. left. reflexivity.
    - rewrite (get_answer_web tavily_search scorer answer_agent (text r)
                 t t' da w Efb Htr Hw).
      eexists. eexists. split; [reflexivity|]. right. reflexivity. }
  destruct Hg as [t [resp [Eg Hsrc]]].
  exists resp. split; [|split; [|split]].
  - rewrite (ap_transcribe_started poll true upload_url fuel Hup).
    rewrite (ap_iterate_terminal poll true k r 0 0 0 fuel Hp Ht Hprog
               (or_intror Hacc) Hk).
    unfold loop_value. rewrite Hs. reflexivity.
  - rewrite Eg. reflexivity.
  - unfold VoiceAssistant.process_audio_and_answer. simpl.
    apply truthy_true_iff in Htxt. rewrite Htxt. simpl.
    rewrite Eg. rewrite bind_pair_ret. simpl. rewrite app_nil_r.
    reflexivity.
  - unfold VoiceAssistant.source_label.
    destruct Hsrc as [E|E]; rewrite E; simpl; [left|right];
      split; reflexivity.
Qed.

Lemma completed_transcription_is_answered_witness :
  exists resp,
    VoiceAssistant.process_audio_and_answer exact_scorer
      (const_provider {| results := None |})
      (agent_of [voice_entry] None) (Some "What is a voice assistant?") =
    (trace (get_answer exact_scorer (const_provider {| results := None |})
              (agent_of [voice_entry] None) "What is a voice assistant?"),
     Ret (Some "What is a voice assistant?", Some resp)) /\
    VoiceAssistant.source_label resp = "Local Knowledge Base".
Proof.
  destruct (completed_transcription_is_answered exact_scorer
              (const_provider {| results := None |})
              (agent_of [voice_entry] None)
              (fun _ => Ret (completed_with "What is a voice assistant?"))
              (Some "https://cdn.assemblyai.com/upload/1")
              0 (completed_with "What is a voice assistant?") 1
              exact_scorer_nonneg eq_refl)
    as [resp [_ [Hr [Hp Hl]]]].
  - split; [reflexivity|]. split; [reflexivity|]. intros j Hj. lia.
  - intros j r Hj. lia.
  - lia.
  - reflexivity.
  - discriminate.
  - exists resp. split; [exact Hp|].
    destruct Hl as [[_ Hl]|[Hsrc _]]; [exact Hl|].
    injection Hr as <-. discriminate Hsrc.
Defined.

(** The text handed to the speech engine is the answer cut to its first
    1000 characters: it is a prefix of the answer, its length is that of the
    answer capped at 1000, and an answer of at most 1000 characters is spoken
    in full. *)
Theorem text_for_speech_capped (response : AnswerResult) :
  is_prefix (VoiceAssistant.text_for_speech response) (answer_text response)
  /\
  String.length (VoiceAssistant.text_for_speech response) =
    Nat.min 1000 (String.length (answer_text response)) /\
  ((String.length (answer_text response) <= 1000)%nat ->
   VoiceAssistant.text_for_speech response = answer_text response).
Proof.
  unfold VoiceAssistant.text_for_speech. split; [apply slice_to_prefix|].
  split; [apply length_slice_to_min|apply slice_to_short].
Qed.
